(** * Snapshot edit-capture-and-preview pipeline of [src/pages/index.tsx]

    A shallow embedding of the page module: the build-time data loader
    [getStaticProps], the [Home] component with its state, its [share]
    handler and the promise chain hanging off the save request, and the
    [Content] tree.  JavaScript built-ins the module calls ([JSON.stringify],
    [JSON.parse], [querySelectorAll]) are modelled after ECMA-262 / the DOM
    standard to the extent the module uses them. *)

From Stdlib Require Import NArith ZArith Lia List String Ascii Bool.
From stdpp Require Import base option list gmap strings.
Import ListNotations.

Local Open Scope N_scope.

(* ===================================================================== *)
(** ** JavaScript strings *)
(* ===================================================================== *)

(** A JavaScript string is a finite sequence of UTF-16 code units. *)
Abbreviation jsstring := (list N).

(** A code unit is a 16-bit value. *)
Definition code_unit (c : N) : Prop := c < 65536.
Definition well_formed (s : jsstring) : Prop := Forall code_unit s.

(** An ASCII source literal, as a sequence of code units. *)
Definition lit (s : string) : jsstring := map N_of_ascii (list_ascii_of_string s).

Definition QUOTE : N := 34.      (* double quote *)
Definition BACKSLASH : N := 92.  (* backslash *)
Definition SLASH : N := 47.      (* slash *)
Definition COMMA : N := 44.
Definition COLON : N := 58.
Definition LBRACK : N := 91.
Definition RBRACK : N := 93.
Definition LBRACE : N := 123.
Definition RBRACE : N := 125.
Definition MINUS : N := 45.
Definition PLUS : N := 43.
Definition DOT : N := 46.
Definition ZERO : N := 48.

Definition is_lead_surrogate (c : N) : bool := (0xD800 <=? c) && (c <=? 0xDBFF).
Definition is_trail_surrogate (c : N) : bool := (0xDC00 <=? c) && (c <=? 0xDFFF).
Definition is_control (c : N) : bool := c <? 0x20.

(* ===================================================================== *)
(** ** JavaScript values *)
(* ===================================================================== *)

(** The values the module handles.  A number is carried as the JSON numeric
    token it was read from: its conversion to an IEEE-754 double is outside
    this development.  An object is its member list in source order; a
    property read takes the last member of that name, which is what
    successive [CreateDataProperty] calls leave behind. *)
#[warning="-register-all"]
Inductive Value :=
| VUndefined
| VNull
| VBool (b : bool)
| VNumber (token : jsstring)
| VString (s : jsstring)
| VArray (elements : list Value)
| VObject (members : list (jsstring * Value)).

Fixpoint lookup_member (k : jsstring) (ms : list (jsstring * Value)) : option Value :=
  match ms with
  | [] => None
  | (k', v) :: ms' =>
      match lookup_member k ms' with
      | Some w => Some w
      | None => if decide (k' = k) then Some v else None
      end
  end.

(** [v.k] for a name [k] that no prototype defines ([id], [innerText],
    [snapshotId]): [None] stands for the [TypeError] thrown on [null] and
    [undefined]; a primitive or an array has no such property. *)
Definition get_property (v : Value) (k : jsstring) : option Value :=
  match v with
  | VUndefined | VNull => None
  | VObject ms => Some (default VUndefined (lookup_member k ms))
  | _ => Some VUndefined
  end.

(* ===================================================================== *)
(** ** JSON.stringify on strings: QuoteJSONString *)
(* ===================================================================== *)

Definition hex_digit (n : N) : N := if n <? 10 then 48 + n else 87 + n.

(** [UnicodeEscape]: a backslash, [u] and four lowercase hex digits. *)
Definition UnicodeEscape (c : N) : jsstring :=
  [BACKSLASH; 117; hex_digit (c / 4096); hex_digit ((c / 256) mod 16);
   hex_digit ((c / 16) mod 16); hex_digit (c mod 16)].

(** The two-character escapes of ECMA-262's table of JSON single character
    escape sequences. *)
Definition single_escape (c : N) : option N :=
  if c =? 0x08 then Some 98        (* \b *)
  else if c =? 0x09 then Some 116  (* \t *)
  else if c =? 0x0A then Some 110  (* \n *)
  else if c =? 0x0C then Some 102  (* \f *)
  else if c =? 0x0D then Some 114  (* \r *)
  else if c =? QUOTE then Some QUOTE
  else if c =? BACKSLASH then Some BACKSLASH
  else None.

(** The body of [QuoteJSONString]: the string is read by code points, so a
    lead surrogate followed by a trail surrogate is copied as a pair and any
    other surrogate is escaped. *)
Fixpoint quote_body (s : jsstring) : jsstring :=
  match s with
  | [] => []
  | c :: r =>
      if is_lead_surrogate c then
        match r with
        | d :: r' =>
            if is_trail_surrogate d then c :: d :: quote_body r'
            else UnicodeEscape c ++ quote_body r
        | [] => UnicodeEscape c
        end
      else
        match single_escape c with
        | Some e => BACKSLASH :: e :: quote_body r
        | None =>
            if is_control c || is_trail_surrogate c
            then UnicodeEscape c ++ quote_body r
            else c :: quote_body r
        end
  end.

Definition QuoteJSONString (s : jsstring) : jsstring :=
  QUOTE :: quote_body s ++ [QUOTE].

(* ===================================================================== *)
(** ** JSON.parse *)
(* ===================================================================== *)

Definition is_ws (c : N) : bool :=
  (c =? 0x20) || (c =? 0x09) || (c =? 0x0A) || (c =? 0x0D).

Fixpoint skip_ws (l : jsstring) : jsstring :=
  match l with
  | c :: r => if is_ws c then skip_ws r else l
  | [] => []
  end.

Definition hex_value (c : N) : option N :=
  if (48 <=? c) && (c <=? 57) then Some (c - 48)
  else if (97 <=? c) && (c <=? 102) then Some (c - 87)
  else if (65 <=? c) && (c <=? 70) then Some (c - 55)
  else None.

Definition hex4 (a b c d : N) : option N :=
  a' ← hex_value a; b' ← hex_value b; c' ← hex_value c; d' ← hex_value d;
  Some (4096 * a' + 256 * b' + 16 * c' + d').

Definition unescape (e : N) : option N :=
  if e =? QUOTE then Some QUOTE
  else if e =? BACKSLASH then Some BACKSLASH
  else if e =? SLASH then Some SLASH
  else if e =? 98 then Some 0x08
  else if e =? 102 then Some 0x0C
  else if e =? 110 then Some 0x0A
  else if e =? 114 then Some 0x0D
  else if e =? 116 then Some 0x09
  else None.

Definition push (c : N) (r : option (jsstring * jsstring)) : option (jsstring * jsstring) :=
  match r with
  | Some (s, rest) => Some (c :: s, rest)
  | None => None
  end.

(** The characters of a JSON string after its opening quote, up to and
    including the closing quote; returns the decoded string and the rest of
    the input. *)
Fixpoint parse_chars (l : jsstring) : option (jsstring * jsstring) :=
  match l with
  | [] => None
  | c :: r =>
      if c =? QUOTE then Some ([], r)
      else if c =? BACKSLASH then
        match r with
        | [] => None
        | e :: r' =>
            if e =? 117 then
              match r' with
              | h1 :: h2 :: h3 :: h4 :: r'' =>
                  match hex4 h1 h2 h3 h4 with
                  | Some u => push u (parse_chars r'')
                  | None => None
                  end
              | _ => None
              end
            else
              match unescape e with
              | Some u => push u (parse_chars r')
              | None => None
              end
        end
      else if is_control c then None
      else push c (parse_chars r)
  end.

Definition is_digit (c : N) : bool := (48 <=? c) && (c <=? 57).

Fixpoint span_digits (l : jsstring) : jsstring * jsstring :=
  match l with
  | c :: r =>
      if is_digit c then let '(ds, rest) := span_digits r in (c :: ds, rest)
      else ([], l)
  | [] => ([], [])
  end.

(** The integer part: a single [0], or a non-zero digit and more digits. *)
Definition scan_int (l : jsstring) : option (jsstring * jsstring) :=
  match l with
  | c :: r =>
      if c =? ZERO then Some ([c], r)
      else if is_digit c then let '(ds, rest) := span_digits r in Some (c :: ds, rest)
      else None
  | [] => None
  end.

Definition scan_frac (l : jsstring) : option (jsstring * jsstring) :=
  match l with
  | c :: r =>
      if c =? DOT then
        match span_digits r with
        | ([], _) => None
        | (ds, rest) => Some (c :: ds, rest)
        end
      else Some ([], l)
  | [] => Some ([], l)
  end.

Definition scan_exp (l : jsstring) : option (jsstring * jsstring) :=
  match l with
  | c :: r =>
      if (c =? 101) || (c =? 69) then
        let '(sign, r1) :=
          match r with
          | s :: r' => if (s =? PLUS) || (s =? MINUS) then ([s], r') else ([], r)
          | [] => ([], r)
          end in
        match span_digits r1 with
        | ([], _) => None
        | (ds, rest) => Some (c :: sign ++ ds, rest)
        end
      else Some ([], l)
  | [] => Some ([], l)
  end.

(** A JSON number token and the rest of the input. *)
Definition scan_number (l : jsstring) : option (jsstring * jsstring) :=
  let '(sign, l1) :=
    match l with
    | c :: r => if c =? MINUS then ([c], r) else ([], l)
    | [] => ([], l)
    end in
  '(i, l2) ← scan_int l1;
  '(f, l3) ← scan_frac l2;
  '(e, l4) ← scan_exp l3;
  Some (sign ++ i ++ f ++ e, l4).

Fixpoint strip_prefix (p l : jsstring) : option jsstring :=
  match p, l with
  | [], _ => Some l
  | a :: p', b :: l' => if a =? b then strip_prefix p' l' else None
  | _ :: _, [] => None
  end.

(** Recursive descent over the JSON grammar.  [n] bounds the number of
    nested calls; [JSON_parse] below supplies enough of it. *)
Fixpoint parse_value (n : nat) (l : jsstring) {struct n} : option (Value * jsstring) :=
  match n with
  | O => None
  | S n =>
      match skip_ws l with
      | [] => None
      | c :: r =>
          if c =? LBRACE then
            match skip_ws r with
            | [] => None
            | c' :: r' =>
                if c' =? RBRACE then Some (VObject [], r')
                else '(ms, rest) ← parse_members n (c' :: r'); Some (VObject ms, rest)
            end
          else if c =? LBRACK then
            match skip_ws r with
            | [] => None
            | c' :: r' =>
                if c' =? RBRACK then Some (VArray [], r')
                else '(vs, rest) ← parse_elements n (c' :: r'); Some (VArray vs, rest)
            end
          else if c =? QUOTE then
            '(s, rest) ← parse_chars r; Some (VString s, rest)
          else if c =? 116 then
            rest ← strip_prefix (lit "true") (c :: r); Some (VBool true, rest)
          else if c =? 102 then
            rest ← strip_prefix (lit "false") (c :: r); Some (VBool false, rest)
          else if c =? 110 then
            rest ← strip_prefix (lit "null") (c :: r); Some (VNull, rest)
          else
            '(tok, rest) ← scan_number (c :: r); Some (VNumber tok, rest)
      end
  end
with parse_elements (n : nat) (l : jsstring) {struct n} : option (list Value * jsstring) :=
  match n with
  | O => None
  | S n =>
      '(v, rest) ← parse_value n l;
      match skip_ws rest with
      | [] => None
      | c :: r =>
          if c =? COMMA then '(vs, rest') ← parse_elements n r; Some (v :: vs, rest')
          else if c =? RBRACK then Some ([v], r)
          else None
      end
  end
with parse_members (n : nat) (l : jsstring) {struct n}
  : option (list (jsstring * Value) * jsstring) :=
  match n with
  | O => None
  | S n =>
      match skip_ws l with
      | [] => None
      | q :: r =>
          if q =? QUOTE then
            '(k, rest) ← parse_chars r;
            match skip_ws rest with
            | [] => None
            | c :: r1 =>
                if c =? COLON then
                  '(v, rest1) ← parse_value n r1;
                  match skip_ws rest1 with
                  | [] => None
                  | c' :: r2 =>
                      if c' =? COMMA then
                        '(ms, rest2) ← parse_members n r2; Some ((k, v) :: ms, rest2)
                      else if c' =? RBRACE then Some ([(k, v)], r2)
                      else None
                  end
                else None
            end
          else None
      end
  end.

Definition parse_fuel (text : jsstring) : nat := 2 * length text + 2.

(** [JSON.parse text]: [None] stands for the [SyntaxError]. *)
Definition JSON_parse (text : jsstring) : option Value :=
  '(v, rest) ← parse_value (parse_fuel text) text;
  match skip_ws rest with
  | [] => Some v
  | _ :: _ => None
  end.

(* ===================================================================== *)
(** ** Field edits and their serialization *)
(* ===================================================================== *)

(** What [share] builds for one editable region: the object literal
    [({ id, innerText })]. *)
Record FieldEdit := { id : jsstring; innerText : jsstring }.

Definition value_of_edit (e : FieldEdit) : Value :=
  VObject [(lit "id", VString (id e)); (lit "innerText", VString (innerText e))].

Definition value_of_edits (es : list FieldEdit) : Value :=
  VArray (map value_of_edit es).

(** [SerializeJSONObject] on an edit: its two properties in creation order. *)
Definition stringify_edit (e : FieldEdit) : jsstring :=
  LBRACE :: QuoteJSONString (lit "id") ++ COLON :: QuoteJSONString (id e)
    ++ COMMA :: QuoteJSONString (lit "innerText") ++ COLON :: QuoteJSONString (innerText e)
    ++ [RBRACE].

Fixpoint join_comma (parts : list jsstring) : jsstring :=
  match parts with
  | [] => []
  | [p] => p
  | p :: ps => p ++ COMMA :: join_comma ps
  end.

(** [JSON.stringify(persistContents)] with no replacer and no indent:
    [SerializeJSONArray] over the edits. *)
Definition JSON_stringify (es : list FieldEdit) : jsstring :=
  LBRACK :: join_comma (map stringify_edit es) ++ [RBRACK].

(** Reading an edit list back from a parsed value. *)
Definition string_of_value (v : Value) : option jsstring :=
  match v with VString s => Some s | _ => None end.

Definition edit_of_value (v : Value) : option FieldEdit :=
  i ← get_property v (lit "id") ≫= string_of_value;
  t ← get_property v (lit "innerText") ≫= string_of_value;
  Some {| id := i; innerText := t |}.

Definition edits_of_value (v : Value) : option (list FieldEdit) :=
  match v with
  | VArray vs => mapM edit_of_value vs
  | _ => None
  end.

(* ===================================================================== *)
(** ** The document and the selector of [share] *)
(* ===================================================================== *)

(** An element of the rendered document: its attributes, the text the
    browser reports as its [innerText], and its element children. *)
#[warning="-register-all"]
Inductive Element :=
| El (tagName : string) (attributes : gmap string jsstring)
     (text : jsstring) (children : list Element).

Definition el_attributes (e : Element) : gmap string jsstring :=
  match e with El _ a _ _ => a end.
Definition el_innerText (e : Element) : jsstring :=
  match e with El _ _ t _ => t end.
Definition el_children (e : Element) : list Element :=
  match e with El _ _ _ cs => cs end.

(** The [id] property reflects the [id] attribute, empty when absent. *)
Definition el_id (e : Element) : jsstring := default [] (el_attributes e !! "id"%string).

(** A node of the document is named by the child positions leading to it
    from the root element. *)
Abbreviation Path := (list nat).

Fixpoint element_at (e : Element) (p : Path) : option Element :=
  match p with
  | [] => Some e
  | i :: p' => c ← el_children e !! i; element_at c p'
  end.

Definition parentNode (p : Path) : Path := removelast p.

(** The two simple selectors of ['[id] > [contenteditable=true]']. *)
Definition has_id (e : Element) : bool :=
  bool_decide (is_Some (el_attributes e !! "id"%string)).
Definition is_editable (e : Element) : bool :=
  bool_decide (el_attributes e !! "contenteditable"%string = Some (lit "true")).

(** [querySelectorAll('[id] > [contenteditable=true]')] below [e], in
    document order.  [parent_matches] tells whether the parent of [e] is an
    element carrying an [id]; the root element's parent is the document. *)
Fixpoint select_from (parent_matches : bool) (here : Path) (e : Element) : list Path :=
  match e with
  | El _ _ _ cs =>
      (if parent_matches && is_editable e then [here] else [])
      ++ (fix each (i : nat) (cs : list Element) : list Path :=
            match cs with
            | [] => []
            | c :: cs' => select_from (has_id e) (here ++ [i]) c ++ each (S i) cs'
            end) 0%nat cs
  end.

Definition querySelectorAll (document : Element) : list Path :=
  select_from false [] document.

(** [[].slice.call(els).map(({ parentNode: { id }, innerText }) =>
    ({ id, innerText }))] *)
Definition edit_of_node (document : Element) (p : Path) : FieldEdit :=
  {| id := default [] (el_id <$> element_at document (parentNode p));
     innerText := default [] (el_innerText <$> element_at document p) |}.

Definition persistContents (document : Element) : list FieldEdit :=
  map (edit_of_node document) (querySelectorAll document).

(* ===================================================================== *)
(** ** Errors, the S3 client and [getStaticProps] *)
(* ===================================================================== *)

(** An error object as the module observes it: its [message] and its
    [statusCode] ([None] when the property is undefined, as on errors the
    engine raises). *)
Record Error := { err_message : jsstring; statusCode : option Z }.

(** What the JavaScript engine decides and this development leaves open. *)
Record Engine := {
  (** whether a JSON numeric token denotes the double zero *)
  number_is_zero : jsstring -> bool;
  (** the message of the [SyntaxError] that [JSON.parse] throws on a text *)
  syntax_error_message : jsstring -> jsstring;
  (** the message of the [TypeError] thrown when destructuring a value *)
  type_error_message : Value -> jsstring;
}.

(** The outcome of [s3.getObject({ Bucket, Key }).promise()]. *)
Inductive S3Response :=
| S3Object (Body : jsstring)
| S3Failure (e : Error).

Abbreviation S3 := (jsstring -> S3Response).

Inductive Result (A : Type) :=
| Return (a : A)
| Throw (e : Error).
Arguments Return {A} a.
Arguments Throw {A} e.

Definition bind_result {A B} (r : Result A) (k : A -> Result B) : Result B :=
  match r with
  | Return a => k a
  | Throw e => Throw e
  end.

Notation "'try!' x <- r ; k" := (bind_result r (fun x => k))
  (at level 10, x name, r at level 100, k at level 200).

Record PreviewData := { pd_snapshotId : jsstring }.

(** The props a page receives; an absent property is [None]. *)
Record Props := {
  isPreview : bool;
  hasError : option bool;
  message : option jsstring;
  snapshotId : option jsstring;
  contents : option Value;
}.

Definition NOT_EXIST : jsstring := lit "The requested preview edit does not exist!".
Definition S3_ERROR : jsstring :=
  lit "An error has occurred while connecting to S3. Please refresh the page to try again.".

(** A promise once the event it waits for has happened: it is fulfilled,
    rejected, or stays pending for ever. *)
Inductive Promise (A : Type) :=
| Fulfilled (a : A)
| Rejected (e : Error)
| Pending.
Arguments Fulfilled {A} a.
Arguments Rejected {A} e.
Arguments Pending {A}.

Section Page.

Context (engine : Engine).

Definition getObject (s3 : S3) (Key : jsstring) : Result jsstring :=
  match s3 Key with
  | S3Object Body => Return Body
  | S3Failure e => Throw e
  end.

Definition JSON_parse_or_throw (text : jsstring) : Result Value :=
  match JSON_parse text with
  | Some v => Return v
  | None => Throw {| err_message := syntax_error_message engine text; statusCode := None |}
  end.

(** The body of the [try] block of [getStaticProps]. *)
Definition load_snapshot (s3 : S3) (snapshotId : jsstring) : Result Props :=
  try! object <- getObject s3 (snapshotId ++ lit ".json");
  try! contents <- JSON_parse_or_throw object;
  Return {| isPreview := true; hasError := None; message := None;
            snapshotId := Some snapshotId; contents := Some contents |}.

Definition getStaticProps (s3 : S3) (preview : bool) (previewData : PreviewData) : Props :=
  if preview then
    let snapshotId := pd_snapshotId previewData in
    match load_snapshot s3 snapshotId with
    | Return props => props
    | Throw e =>
        {| isPreview := false;
           hasError := Some true;
           message := Some (if decide (statusCode e = Some 403%Z) then NOT_EXIST else S3_ERROR);
           snapshotId := None; contents := None |}
    end
  else
    {| isPreview := false; hasError := None; message := None;
       snapshotId := None; contents := None |}.

(* ===================================================================== *)
(** ** The element tree [Home] returns *)
(* ===================================================================== *)

(** The callbacks [Home] hands to its children. *)
Inductive Handler := h_onClearError | h_clearSnapshot | h_toggleEdit | h_share.

Inductive PropVal :=
| PString (s : jsstring)
| PBool (b : bool)
| PValue (v : Value)
| PHandler (h : Handler)
| PStyle (css : list (string * jsstring)).

(** A React node: a string child, any other JavaScript value in child
    position, an element (host tag or component, with its props) or a
    fragment.  [Malleable], [ErrorDialog], [ShareLinkDialog], [Snapshot],
    [Edit] and [Head] are imported components and stay unevaluated. *)
#[warning="-register-all"]
Inductive Node :=
| Text (s : jsstring)
| Expr (v : Value)
| Elem (type : string) (props : list (string * PropVal)) (children : list Node)
| Fragment (children : list Node).

Local Open Scope string_scope.

Definition anchor (href : string) (label : string) : Node :=
  Elem "a" [("target", PString (lit "_blank")); ("rel", PString (lit "noopener"));
            ("href", PString (lit href))] [Text (lit label)].

Definition SPACE : Node := Text (lit " ").

(** [<Malleable id=.. as=.. className=.. isActive={isEdit} edits={edits}>] *)
Definition Malleable (id : string) (as_ className : option string)
    (isActive : bool) (edits : Value) (children : list Node) : Node :=
  Elem "Malleable"
    ([("id", PString (lit id))]
     ++ match as_ with Some t => [("as", PString (lit t))] | None => [] end
     ++ match className with Some c => [("className", PString (lit c))] | None => [] end
     ++ [("isActive", PBool isActive); ("edits", PValue edits)])
    children.

Definition feature (children : list Node) : Node :=
  Elem "div" [("className", PString (lit "feature"))] children.

(** [function Content({ isEdit, edits })] *)
Definition Content (isEdit : bool) (edits : Value) : Node :=
  Fragment [
    Malleable "title" (Some "h1") None isEdit edits [Text (lit "My Static Site")];
    Elem "div" [("className", PString (lit "features"))] [
      feature [
        Malleable "feature-1-emoji" (Some "div") None isEdit edits [Text [0x26A1%N]];
        Malleable "feature-1-text" (Some "h4") None isEdit edits [Text (lit "Blazing fast")]];
      feature [
        Malleable "feature-2-emoji" (Some "div") None isEdit edits
          [Text [0xD83D%N; 0xDCE1%N]];
        Malleable "feature-2-text" (Some "h4") None isEdit edits
          [Text (lit "Always available")]];
      feature [
        Malleable "feature-3-emoji" (Some "div") None isEdit edits
          [Text [0xD83C%N; 0xDFCE%N]];
        Malleable "feature-3-text" (Some "h4") None isEdit edits
          [Text (lit "Lighthouse 100")]]];
    Malleable "title-2" (Some "h2") None isEdit edits [
      Text (lit "This demonstrates a static website generated using"); SPACE;
      anchor "https://nextjs.org" "Next.js'"; SPACE;
      Text (lit "new"); SPACE;
      anchor "https://nextjs.org/docs/basic-features/data-fetching/get-static-props"
        "Static Site Generation (SSG)";
      Text (lit ". View the source on"); SPACE;
      anchor "https://github.com/vercel/preview-mode-demo" "GitHub";
      Text (lit ".")];
    Elem "div" [("className", PString (lit "explanation"))] [
      Elem "div" [("className", PString (lit "p"))] [
        Malleable "explanation-1-inspect" (Some "span") None isEdit edits [
          Text (lit "To inspect the response from"); SPACE;
          anchor "https://vercel.com/docs/concepts/edge-network/overview" "our edge network";
          Text (lit ", run:")];
        Elem "br" [] [];
        Malleable "explanation-1-pre-curl" (Some "pre") None isEdit edits
          [Text (lit "curl -sI https://next-preview.vercel.app | grep x-vercel")];
        Malleable "explanation-1-pre-response" (Some "pre") (Some "light") isEdit edits [
          Text (lit "x-vercel-cache: HIT");
          Elem "br" [] [];
          Text (lit "x-vercel-id: cle1::zzq7g-1604525989923-a33b3946ccee")]];
      Malleable "explanation-2" None None isEdit edits [
        Text (lit "When people visit this site, the response always comes instantly from their");
        SPACE;
        anchor "https://vercel.com/docs/concepts/edge-network/overview" "nearest location";
        Text (lit ".")];
      Malleable "explanation-3" None None isEdit edits [
        Text (lit "Unlike traditional static solutions, however, you can generate previews of edits that you can share with anyone you choose. To try it out, click the edit icon on the bottom right and edit the content. When you're done, click the share icon on the bottom right to generate a shareable preview URL.")];
      Malleable "explanation-4" None None isEdit edits [
        Text (lit "SSG and Preview Mode make Next.js the most optimal framework to integrate into your Headless CMS workflow. Learn more about the preview mode on");
        SPACE;
        anchor "https://nextjs.org/docs/advanced-features/preview-mode" "our documentation."]]].

(** The state behind the hooks of [Home]: three [useState] cells, the
    [hasSaveRequest] ref and the error cell. *)
Record HomeState := {
  currentSnapshotId : Value;
  isEdit : bool;
  hasSaveRequest : bool;
  isSharingView : bool;
  currentError : option Error;
}.

Definition initial : HomeState :=
  {| currentSnapshotId := VNull; isEdit := false; hasSaveRequest := false;
     isSharingView := false; currentError := None |}.

(** JavaScript truthiness. *)
Definition truthy (v : Value) : bool :=
  match v with
  | VUndefined | VNull => false
  | VBool b => b
  | VNumber tok => negb (number_is_zero engine tok)
  | VString s => negb (bool_decide (s = []))
  | VArray _ | VObject _ => true
  end.

(** A value in child position: a string is a text child. *)
Definition child (v : Value) : Node :=
  match v with
  | VString s => Text s
  | _ => Expr v
  end.

Definition value_of_option_bool (b : option bool) : Value :=
  match b with Some b => VBool b | None => VUndefined end.

(** [<aside role="alert"><a href="/api/exit">Preview Mode</a></aside>] *)
Definition preview_bar : Node :=
  Elem "aside" [("role", PString (lit "alert"))]
    [Elem "a" [("href", PString (lit "/api/exit"))] [Text (lit "Preview Mode")]].

(** The branch of [props.hasError ? ... : ...] taken on an error. *)
Definition error_page (message : option jsstring) : Node :=
  Fragment [
    Elem "h1" [] [Text (lit "Oops")];
    Elem "h2" [] [Text (lit "Something unique to your preview went wrong.")];
    Elem "div" [("className", PString (lit "explanation"));
                ("style", PStyle [("textAlign", lit "center")])] [
      Elem "p" [] [
        Text (lit "The production website is ");
        Elem "strong" [] [Text (lit "still available")];
        Text (lit " and this does not affect other users.")]];
    Elem "hr" [] [];
    Elem "h2" [] [Text (lit "Reason")];
    Elem "div" [("className", PString (lit "explanation"));
                ("style", PStyle [("textAlign", lit "center")])] [
      Elem "p" [] [child (from_option VString VUndefined message)]]].

(** [const edits = props.isPreview ? props.contents : []] *)
Definition edits_of (props : Props) : Value :=
  if isPreview props then default VUndefined (contents props) else VArray [].

(** [props.isPreview || props.hasError] *)
Definition preview_or_error (props : Props) : Value :=
  if isPreview props then VBool true else value_of_option_bool (hasError props).

Definition error_dialog (currentError : option Error) : Node :=
  match currentError with
  | Some e =>
      Elem "ErrorDialog" [("onExit", PHandler h_onClearError)] [
        Elem "p" [] [Text (lit "An error occurred while saving your snapshot. Please try again in a bit.")];
        Elem "pre" [] [Text (err_message e)]]
  | None => Expr VNull
  end.

Definition share_link_dialog (currentSnapshotId : Value) : Node :=
  if truthy currentSnapshotId then
    Elem "ShareLinkDialog"
      [("snapshotId", PValue currentSnapshotId); ("onExit", PHandler h_clearSnapshot)] []
  else child currentSnapshotId.

(** [export default function Home(props)]: the tree it returns in state
    [st].  [layoutStyles.layout] is a CSS-module class name, written here
    as the name it is declared under. *)
Definition Home (props : Props) (st : HomeState) : Node :=
  let edits := edits_of props in
  Fragment [
    Elem "Head" [] [
      Elem "title" [] [Text (lit "Next.js | Preview Mode")];
      Elem "meta" [("name", PString (lit "description"));
                   ("content", PString (lit "This website demonstrates a static website Testou generated using Next.js' new Static Site Generation (SSG)."))] []];
    error_dialog (currentError st);
    share_link_dialog (currentSnapshotId st);
    Elem "div" [("className", PString (lit "layout"))] [
      (if truthy (preview_or_error props) then preview_bar
       else child (preview_or_error props));
      (if truthy (value_of_option_bool (hasError props))
       then error_page (message props)
       else Content (isEdit st) edits)];
    (if isEdit st then
       Fragment [Elem "Snapshot" [("onCancel", PHandler h_toggleEdit);
                                  ("onShare", PHandler h_share);
                                  ("isSharing", PBool (isSharingView st))] []]
     else Elem "Edit" [("onClick", PHandler h_toggleEdit)] [])].

Local Close Scope string_scope.

(* ===================================================================== *)
(** ** The [share] handler and its promise chain *)
(* ===================================================================== *)

Record Request := {
  url : jsstring;
  method : jsstring;
  body : jsstring;
  headers : list (jsstring * jsstring);
}.

(** What a handler does, in the order it does it. *)
Inductive Action :=
| SetSharing (sharing : bool)
| SetSnapshotId (v : Value)
| SetError (e : option Error)
| SetEdit (b : bool)
| Fetch (r : Request).

(** Handlers run over the hook state and leave a trace of their actions. *)
Definition M (A : Type) : Type := HomeState -> A * HomeState * list Action.

Definition ret {A} (a : A) : M A := fun st => (a, st, []).

Definition bind {A B} (m : M A) (k : A -> M B) : M B :=
  fun st =>
    let '(a, st1, t1) := m st in
    let '(b, st2, t2) := k a st1 in
    (b, st2, t1 ++ t2).

Notation "'let!' x <- m ; k" := (bind m (fun x => k))
  (at level 10, x name, m at level 100, k at level 200).
Notation "'run!' m ; k" := (bind m (fun _ => k))
  (at level 10, m at level 100, k at level 200).

Definition read {A} (f : HomeState -> A) : M A := fun st => (f st, st, []).

(** [setSharing]: [hasSaveRequest.current = sharing; _setSharing(sharing)] *)
Definition setSharing (sharing : bool) : M unit :=
  fun st =>
    (tt,
     {| currentSnapshotId := currentSnapshotId st; isEdit := isEdit st;
        hasSaveRequest := sharing; isSharingView := sharing;
        currentError := currentError st |},
     [SetSharing sharing]).

Definition setSnapshotId (v : Value) : M unit :=
  fun st =>
    (tt,
     {| currentSnapshotId := v; isEdit := isEdit st;
        hasSaveRequest := hasSaveRequest st; isSharingView := isSharingView st;
        currentError := currentError st |},
     [SetSnapshotId v]).

Definition setError (e : option Error) : M unit :=
  fun st =>
    (tt,
     {| currentSnapshotId := currentSnapshotId st; isEdit := isEdit st;
        hasSaveRequest := hasSaveRequest st; isSharingView := isSharingView st;
        currentError := e |},
     [SetError e]).

Definition setEdit (b : bool) : M unit :=
  fun st =>
    (tt,
     {| currentSnapshotId := currentSnapshotId st; isEdit := b;
        hasSaveRequest := hasSaveRequest st; isSharingView := isSharingView st;
        currentError := currentError st |},
     [SetEdit b]).

Definition fetch (r : Request) : M unit := fun st => (tt, st, [Fetch r]).

(** [clearSnapshot], [toggleEdit] and [onClearError]. *)
Definition clearSnapshot : M unit := setSnapshotId VNull.
Definition toggleEdit : M unit := let! e <- read isEdit; setEdit (negb e).
Definition onClearError : M unit := setError None.

(** The request [share] issues for a document. *)
Definition save_request (document : Element) : Request :=
  {| url := lit "/api/save"; method := lit "POST";
     body := JSON_stringify (persistContents document);
     headers := [(lit "content-type", lit "application/json")] |}.

(** The state after [setSharing b]. *)
Definition with_sharing (b : bool) (st : HomeState) : HomeState :=
  {| currentSnapshotId := currentSnapshotId st; isEdit := isEdit st;
     hasSaveRequest := b; isSharingView := b; currentError := currentError st |}.

(** The synchronous part of [share], up to and including the call of
    [self.fetch]. *)
Definition share (document : Element) : M unit :=
  let! busy <- read hasSaveRequest;
  if busy then ret tt
  else
    run! setSharing true;
    fetch (save_request document).

Definition then_ {A B} (p : Promise A) (f : A -> M (Promise B)) : M (Promise B) :=
  match p with
  | Fulfilled a => f a
  | Rejected e => ret (Rejected e)
  | Pending => ret Pending
  end.

Definition catch_ {A} (p : Promise A) (h : Error -> M (Promise A)) : M (Promise A) :=
  match p with
  | Rejected e => h e
  | _ => ret p
  end.

Definition finally_ {A} (p : Promise A) (h : M unit) : M (Promise A) :=
  match p with
  | Pending => ret Pending
  | _ => run! h; ret p
  end.

(** Reading the body of a response: its text, or the failure of the read. *)
Inductive BodyRead :=
| BodyText (text : jsstring)
| BodyFailure (e : Error).

(** How the [fetch] ends: rejected (network failure), or a response with
    its [ok] flag and its body. *)
Inductive FetchResult :=
| NetworkFailure (e : Error)
| Response (ok : bool) (body : BodyRead).

Definition fetch_promise (r : FetchResult) : Promise (bool * BodyRead) :=
  match r with
  | NetworkFailure e => Rejected e
  | Response ok b => Fulfilled (ok, b)
  end.

(** [res.json()] *)
Definition res_json (b : BodyRead) : Promise Value :=
  match b with
  | BodyText text =>
      match JSON_parse_or_throw text with
      | Return v => Fulfilled v
      | Throw e => Rejected e
      end
  | BodyFailure e => Rejected e
  end.

(** [new Promise(async (_, reject) => reject(new Error(await res.text())))]:
    when [res.text()] rejects, the async executor's own promise rejects and
    nobody calls [reject]. *)
Definition reject_with_text (b : BodyRead) : Promise Value :=
  match b with
  | BodyText text => Rejected {| err_message := text; statusCode := None |}
  | BodyFailure _ => Pending
  end.

(** [({ snapshotId }) => { setSnapshotId(snapshotId); }] *)
Definition on_json (v : Value) : M (Promise unit) :=
  match get_property v (lit "snapshotId") with
  | Some id => run! setSnapshotId id; ret (Fulfilled tt)
  | None =>
      ret (Rejected {| err_message := type_error_message engine v; statusCode := None |})
  end.

(** The chain [.then(..).then(..).catch(..).finally(..)] run on the outcome
    of the [fetch]. *)
Definition settle (r : FetchResult) : M (Promise unit) :=
  let! p1 <- then_ (fetch_promise r)
               (fun '(ok, b) => ret (if ok then res_json b else reject_with_text b));
  let! p2 <- then_ p1 on_json;
  let! p3 <- catch_ p2 (fun err => run! setError (Some err); ret (Fulfilled tt));
  finally_ p3 (setSharing false).

(* ===================================================================== *)
(** ** The page over time *)
(* ===================================================================== *)

(** A save whose chain has not settled: still waiting for the response, or
    pending for ever. *)
Inductive Chain :=
| Awaiting (r : Request)
| Stuck.

Record Page := { home : HomeState; chains : list Chain }.

Inductive Event :=
| EvShare (document : Element)
| EvSettle (r : FetchResult)
| EvClearError
| EvClearSnapshot
| EvToggleEdit.

Definition requests (t : list Action) : list Chain :=
  flat_map (fun a => match a with Fetch r => [Awaiting r] | _ => [] end) t.

Definition on_home (m : M unit) (pg : Page) : Page * list Action :=
  let '(_, st, t) := m (home pg) in
  ({| home := st; chains := chains pg ++ requests t |}, t).

(** One event; [None] when a response is delivered that no save awaits. *)
Definition step (pg : Page) (ev : Event) : option (Page * list Action) :=
  match ev with
  | EvShare document => Some (on_home (share document) pg)
  | EvSettle r =>
      match chains pg with
      | Awaiting _ :: rest =>
          let '(p, st, t) := settle r (home pg) in
          Some ({| home := st;
                   chains := match p with Pending => Stuck :: rest | _ => rest end |}, t)
      | _ => None
      end
  | EvClearError => Some (on_home onClearError pg)
  | EvClearSnapshot => Some (on_home clearSnapshot pg)
  | EvToggleEdit => Some (on_home toggleEdit pg)
  end.

Fixpoint run (pg : Page) (evs : list Event) : option (Page * list Action) :=
  match evs with
  | [] => Some (pg, [])
  | ev :: evs' =>
      match step pg ev with
      | Some (pg1, t1) =>
          match run pg1 evs' with
          | Some (pg2, t2) => Some (pg2, t1 ++ t2)
          | None => None
          end
      | None => None
      end
  end.

Definition start : Page := {| home := initial; chains := [] |}.

Definition reachable (pg : Page) : Prop :=
  exists evs t, run start evs = Some (pg, t).

(** How the chain ends on each outcome of the fetch: the error it stores,
    the snapshot id it stores, or nothing because it never settles. *)
Inductive Ending :=
| StoresError (e : Error)
| StoresSnapshotId (v : Value)
| NeverSettles.

Definition ending (r : FetchResult) : Ending :=
  match r with
  | NetworkFailure e => StoresError e
  | Response true (BodyText text) =>
      match JSON_parse text with
      | Some v =>
          match get_property v (lit "snapshotId") with
          | Some id => StoresSnapshotId id
          | None =>
              StoresError {| err_message := type_error_message engine v; statusCode := None |}
          end
      | None =>
          StoresError {| err_message := syntax_error_message engine text; statusCode := None |}
      end
  | Response true (BodyFailure e) => StoresError e
  | Response false (BodyText text) =>
      StoresError {| err_message := text; statusCode := None |}
  | Response false (BodyFailure _) => NeverSettles
  end.

(** The guard matches the chains: the ref is set exactly while one save
    has not settled, and no second one is outstanding. *)
Definition guarded (pg : Page) : Prop :=
  (hasSaveRequest (home pg) = true /\ exists c, chains pg = [c]) \/
  (hasSaveRequest (home pg) = false /\ chains pg = []).

End Page.

(* ===================================================================== *)
(** ** The scraping script: [scrapeData] *)
(* ===================================================================== *)

(** [s.indexOf(pat)] searching from [s], its first code unit at position
    [i]: the first position where [pat] starts, [-1] when there is none. *)
Fixpoint indexOf_from (i : Z) (s pat : jsstring) : Z :=
  match strip_prefix pat s with
  | Some _ => i
  | None =>
      match s with
      | [] => (-1)%Z
      | _ :: r => indexOf_from (i + 1) r pat
      end
  end.

Definition indexOf (s pat : jsstring) : Z := indexOf_from 0 s pat.

(** An argument of [substring] brought into [0 .. length]. *)
Definition clamp (len : nat) (z : Z) : nat :=
  Z.to_nat (Z.min (Z.max z 0) (Z.of_nat len)).

(** [s.substring(start, end)]: both ends are clamped, and swapped when
    they come in the wrong order. *)
Definition substring (s : jsstring) (start end_ : Z) : jsstring :=
  let a := clamp (length s) start in
  let b := clamp (length s) end_ in
  take (Nat.max a b - Nat.min a b)%nat (drop (Nat.min a b) s).

(** [var startIndex = inputString.outerHTML.indexOf("source: ") + 9] *)
Definition startIndex (outerHTML : jsstring) : Z :=
  (indexOf outerHTML (lit "source: ") + 9)%Z.

(** [var endIndex = inputString.outerHTML.indexOf("poster:") - 28] *)
Definition endIndex (outerHTML : jsstring) : Z :=
  (indexOf outerHTML (lit "poster:") - 28)%Z.

(** [startIndex != -1 && endIndex != -1] *)
Definition found (outerHTML : jsstring) : bool :=
  negb (startIndex outerHTML =? -1)%Z && negb (endIndex outerHTML =? -1)%Z.

(** [inputString.outerHTML.substring((startIndex), endIndex)] *)
Definition result (outerHTML : jsstring) : jsstring :=
  substring outerHTML (startIndex outerHTML) (endIndex outerHTML).

(** The UTF-8 bytes of one code point. *)
Definition utf8_code_point (cp : N) : list N :=
  if (cp <? 0x80)%N then [cp]
  else if (cp <? 0x800)%N then [0xC0 + cp / 64; 0x80 + cp mod 64]%N
  else if (cp <? 0x10000)%N then
    [0xE0 + cp / 4096; 0x80 + (cp / 64) mod 64; 0x80 + cp mod 64]%N
  else
    [0xF0 + cp / 262144; 0x80 + (cp / 4096) mod 64;
     0x80 + (cp / 64) mod 64; 0x80 + cp mod 64]%N.

(** U+FFFD, which stands in for a surrogate that has no partner. *)
Definition REPLACEMENT : list N := [0xEF; 0xBF; 0xBD]%N.

(** [Buffer.from(s)]: the UTF-8 encoding of a string. *)
Fixpoint utf8 (s : jsstring) : list N :=
  match s with
  | [] => []
  | c :: r =>
      if is_lead_surrogate c then
        match r with
        | d :: r' =>
            if is_trail_surrogate d
            then utf8_code_point (0x10000 + (c - 0xD800) * 0x400 + (d - 0xDC00))%N ++ utf8 r'
            else REPLACEMENT ++ utf8 r
        | [] => REPLACEMENT
        end
      else if is_trail_surrogate c then REPLACEMENT ++ utf8 r
      else utf8_code_point c ++ utf8 r
  end.

(** The base64 alphabet. *)
Definition base64_char (n : N) : N :=
  if (n <? 26)%N then (65 + n)%N
  else if (n <? 52)%N then (71 + n)%N
  else if (n <? 62)%N then (n - 4)%N
  else if (n =? 62)%N then 43%N
  else 47%N.

Definition PAD : N := 61%N.

(** [buffer.toString('base64')] *)
Fixpoint base64 (bytes : list N) : jsstring :=
  match bytes with
  | [] => []
  | [a] => [base64_char (a / 4); base64_char ((a mod 4) * 16); PAD; PAD]%N
  | [a; b] =>
      [base64_char (a / 4); base64_char ((a mod 4) * 16 + b / 16);
       base64_char ((b mod 16) * 4); PAD]%N
  | a :: b :: c :: rest =>
      [base64_char (a / 4); base64_char ((a mod 4) * 16 + b / 16);
       base64_char ((b mod 16) * 4 + c / 64); base64_char (c mod 64)]%N
      ++ base64 rest
  end.

(** [Buffer.from(result).toString('base64')], and the same again on it. *)
Definition encodedString (result : jsstring) : jsstring := base64 (utf8 result).
Definition encodedStringSecond (result : jsstring) : jsstring :=
  base64 (utf8 (encodedString result)).

(** An awaited promise. *)
Inductive Settled (A : Type) :=
| Resolves (a : A)
| Rejects (e : Error).
Arguments Resolves {A} a.
Arguments Rejects {A} e.

(** What the script's surroundings answer: the page text ([fetch] and
    [response.text()]), the script elements JSDOM finds in a text (each by
    its [outerHTML]), and the two requests to the repository API. *)
Record World := {
  page : Settled jsstring;
  script_elements : jsstring -> list jsstring;
  get_contents : Settled Value;
  put_contents : jsstring -> Value -> Settled Value;
}.

(** What [console.log] is given. *)
Inductive Logged :=
| LText (s : jsstring)
| LNumber (z : Z)
| LElement (outerHTML : option jsstring)
| LValue (v : Value)
| LError (e : Error).

(** What the script does, in order. *)
Inductive Output :=
| FetchPage
| Log (x : Logged)
| GetContents
| PutContents (content : jsstring) (sha : Value).

Section Scrape.

Context (engine : Engine).

Definition TypeError (v : Value) : Error :=
  {| err_message := type_error_message engine v; statusCode := None |}.

(** [const { data: { sha } } = response] *)
Definition data_sha (response : Value) : Result Value :=
  match get_property response (lit "data") with
  | None => Throw (TypeError response)
  | Some data =>
      match get_property data (lit "sha") with
      | None => Throw (TypeError data)
      | Some sha => Return sha
      end
  end.

(** [async function scrapeData()], with its [try] and [catch]. *)
Definition scrapeData (w : World) : list Output :=
  FetchPage ::
  match page w with
  | Rejects error => [Log (LError error)]
  | Resolves html =>
      Log (LText html) ::
      let scripts := script_elements w html in
      let inputString := last scripts in
      Log (LElement inputString) ::
      match inputString with
      | None => [Log (LError (TypeError VUndefined))]
      | Some outerHTML =>
          Log (LText outerHTML) ::
          Log (LNumber (startIndex outerHTML)) ::
          Log (LNumber (endIndex outerHTML)) ::
          if found outerHTML then
            Log (LText (result outerHTML)) ::
            GetContents ::
            match get_contents w with
            | Rejects error => [Log (LError error)]
            | Resolves response =>
                match data_sha response with
                | Throw error => [Log (LError error)]
                | Return sha =>
                    let content := encodedStringSecond (result outerHTML) in
                    Log (LValue sha) ::
                    PutContents content sha ::
                    match put_contents w content sha with
                    | Rejects error => [Log (LError error)]
                    | Resolves respUpdate => [Log (LValue respUpdate)]
                    end
                end
            end
          else [Log (LText (lit "Not found"))]
      end
  end.

End Scrape.

(* ===================================================================== *)
(** ** Notions the statements below are written in *)
(* ===================================================================== *)

Definition well_formed_edit (e : FieldEdit) : Prop :=
  well_formed (id e) /\ well_formed (innerText e).

(** An editable region of the document: an element whose
    [contenteditable] attribute is [true] and whose parent element carries
    an [id] attribute. *)
Definition is_region (document : Element) (p : Path) : Prop :=
  exists q i parent el,
    p = q ++ [i] /\
    element_at document q = Some parent /\
    element_at document p = Some el /\
    is_Some (el_attributes parent !! "id"%string) /\
    el_attributes el !! "contenteditable"%string = Some (lit "true").

(** The edit [fe] pairs the identifier of the parent of the node at [p]
    with the text of that node. *)
Definition captures (document : Element) (p : Path) (fe : FieldEdit) : Prop :=
  exists parent el,
    element_at document (parentNode p) = Some parent /\
    element_at document p = Some el /\
    el_attributes parent !! "id"%string = Some (id fe) /\
    innerText fe = el_innerText el.

(** Why the [try] block of [getStaticProps] throws, with the [statusCode]
    of the error thrown: the backend read fails, or the body read is not
    JSON. *)
Inductive load_failure (s3 : S3) (snapshotId : jsstring) : option Z -> Prop :=
| backend_failure e :
    s3 (snapshotId ++ lit ".json") = S3Failure e ->
    load_failure s3 snapshotId (statusCode e)
| malformed_body b :
    s3 (snapshotId ++ lit ".json") = S3Object b ->
    JSON_parse b = None ->
    load_failure s3 snapshotId None.




(** [a] occurs in the tree [n]. *)
Inductive subnode (a : Node) : Node -> Prop :=
| sub_here : subnode a a
| sub_elem ty ps cs c : c ∈ cs -> subnode a c -> subnode a (Elem ty ps cs)
| sub_frag cs c : c ∈ cs -> subnode a c -> subnode a (Fragment cs).

(** The elements of a tree, each with its props, in document order. *)
Fixpoint elements_of (n : Node) : list (string * list (string * PropVal)) :=
  match n with
  | Text _ | Expr _ => []
  | Elem ty ps cs =>
      (ty, ps) :: (fix each (cs : list Node) :=
                     match cs with
                     | [] => []
                     | c :: cs' => elements_of c ++ each cs'
                     end) cs
  | Fragment cs =>
      (fix each (cs : list Node) :=
         match cs with
         | [] => []
         | c :: cs' => elements_of c ++ each cs'
         end) cs
  end.

Fixpoint prop (name : string) (ps : list (string * PropVal)) : option PropVal :=
  match ps with
  | [] => None
  | (k, v) :: ps' => if decide (k = name) then Some v else prop name ps'
  end.

(** Modelled from the spec: the blob backend behind the S3 client, an
    opaque key-value store with get and put by key (section 6); [absent] is
    the error it reports for a key it does not hold. *)
Definition s3_of (bucket : gmap jsstring jsstring) (absent : Error) : S3 :=
  fun Key =>
    match bucket !! Key with
    | Some blob => S3Object blob
    | None => S3Failure absent
    end.

(** Modelled from the spec: the save endpoint ([/api/save], not among the
    sources).  It accepts a sequence of field edits as the request payload,
    serializes it as the snapshot payload, writes it to the blob backend
    under the key derived from a server-generated identifier [fresh], and
    returns that identifier (sections 4.3 and 6).  [None] is the
    non-success response to a payload that is no sequence of edits. *)
Definition api_save (fresh : jsstring) (payload : jsstring)
    (bucket : gmap jsstring jsstring) : option (gmap jsstring jsstring * jsstring) :=
  edits ← JSON_parse payload ≫= edits_of_value;
  Some (<[fresh ++ lit ".json" := JSON_stringify edits]> bucket, fresh).

(** Modelled from the spec: the overlay built from a snapshot's edits, one
    entry per edit, the last entry winning on a repeated id (section 4.5);
    the component applying it, [Malleable], is not among the sources. *)
Definition overlay (es : list FieldEdit) : gmap jsstring jsstring :=
  foldl (fun m e => <[id e := innerText e]> m) ∅ es.

(** The element types occurring in a tree. *)
Definition types_in (n : Node) : list string := (elements_of n).*1.

(** The elements of a list of trees. *)
Definition elements_of_all : list Node -> list (string * list (string * PropVal)) :=
  fix each (cs : list Node) :=
    match cs with
    | [] => []
    | c :: cs' => elements_of c ++ each cs'
    end.

(** The loop over the children inside [select_from]. *)
Definition select_children (pm : bool) (here : Path) : nat -> list Element -> list Path :=
  fix each (i : nat) (cs : list Element) : list Path :=
    match cs with
    | [] => []
    | c :: cs' => select_from pm (here ++ [i]) c ++ each (S i) cs'
    end.

(** A region seen from the subtree [e]: the parent at [q], the editable
    element at child [i] of it. *)
Definition region_below (e : Element) (q : Path) (i : nat) : Prop :=
  exists parent el,
    element_at e q = Some parent /\
    element_at e (q ++ [i]) = Some el /\
    has_id parent = true /\ is_editable el = true.

(** The part of a numeric token before its exponent. *)
Fixpoint mantissa (tok : jsstring) : jsstring :=
  match tok with
  | [] => []
  | c :: r => if (c =? 101) || (c =? 69) then [] else c :: mantissa r
  end.

(** An engine to evaluate the definitions on examples: it takes a numeric
    token for zero when all digits of its mantissa are, and gives every
    error of a kind one message. *)
Definition sample_engine : Engine :=
  {| number_is_zero := fun tok =>
       forallb (fun c => negb (is_digit c) || (c =? ZERO)) (mantissa tok);
     syntax_error_message := fun _ => lit "Unexpected token in JSON";
     type_error_message := fun _ => lit "Cannot destructure property snapshotId" |}.

(** A parser consumes input: what it leaves is shorter than what it got. *)
Definition shorter {A} (parse : jsstring -> option (A * jsstring)) : Prop :=
  forall l a rest, parse l = Some (a, rest) -> (length rest < length l)%nat.

(** From [n] on, one more unit of the bound changes nothing on inputs of
    length up to [(n - slack) / 2]. *)
Definition stable {A} (parse : nat -> jsstring -> option (A * jsstring))
    (slack n : nat) : Prop :=
  forall l, (2 * length l + slack <= n)%nat -> parse (S n) l = parse n l.

(** The [Malleable] regions of a tree, and the ids they are declared with. *)
Definition regions (n : Node) : list (list (string * PropVal)) :=
  omap (fun el => if decide (el.1 = "Malleable"%string) then Some el.2 else None)
       (elements_of n).

Definition region_ids (n : Node) : list jsstring :=
  omap (fun ps => match prop "id" ps with Some (PString s) => Some s | _ => None end)
       (regions n).

(** Every string the capture can read off the document is a sequence of
    16-bit code units. *)
Definition well_formed_document (document : Element) : Prop :=
  forall p e, element_at document p = Some e ->
    well_formed (el_id e) /\ well_formed (el_innerText e).

Definition is_Fetch (a : Action) : bool :=
  match a with Fetch _ => true | _ => false end.
Definition is_EvSettle (ev : Event) : bool :=
  match ev with EvSettle _ => true | _ => false end.
Definition is_Awaiting (c : Chain) : bool :=
  match c with Awaiting _ => true | Stuck => false end.


(** The state cell behind the busy indicator agrees with the guard. *)
Definition synced (pg : Page) : Prop :=
  isSharingView (home pg) = hasSaveRequest (home pg).

(** Requests in a trace, responses among events, saves still waiting. *)
Definition fetches (t : list Action) : nat := length (filter is_Fetch t).
Definition settles (evs : list Event) : nat := length (filter is_EvSettle evs).
Definition awaiting (pg : Page) : nat := length (filter is_Awaiting (chains pg)).

(** A page whose only save never settled. *)
Definition stuck (pg : Page) : Prop :=
  chains pg = [Stuck] /\ hasSaveRequest (home pg) = true /\
  isSharingView (home pg) = true.

(** Reading base64 back (RFC 4648): the value of a character of the
    alphabet, and the bytes of a padded text. *)
Definition base64_value (c : N) : option N :=
  if (65 <=? c)%N && (c <=? 90)%N then Some (c - 65)%N
  else if (97 <=? c)%N && (c <=? 122)%N then Some (c - 71)%N
  else if (48 <=? c)%N && (c <=? 57)%N then Some (c + 4)%N
  else if (c =? 43)%N then Some 62%N
  else if (c =? 47)%N then Some 63%N
  else None.

Fixpoint base64_decode (s : jsstring) : option (list N) :=
  match s with
  | [] => Some []
  | c1 :: c2 :: c3 :: c4 :: rest =>
      v1 ← base64_value c1; v2 ← base64_value c2;
      if (c3 =? PAD)%N then
        match rest with
        | [] => if (c4 =? PAD)%N then Some [v1 * 4 + v2 / 16]%N else None
        | _ => None
        end
      else
        v3 ← base64_value c3;
        if (c4 =? PAD)%N then
          match rest with
          | [] => Some [v1 * 4 + v2 / 16; (v2 mod 16) * 16 + v3 / 4]%N
          | _ => None
          end
        else
          v4 ← base64_value c4;
          tail ← base64_decode rest;
          Some ([v1 * 4 + v2 / 16; (v2 mod 16) * 16 + v3 / 4; (v3 mod 4) * 64 + v4]%N ++ tail)
  | _ => None
  end.

Definition is_byte (b : N) : Prop := (b < 256)%N.

Definition puts (out : list Output) : list (jsstring * Value) :=
  omap (fun o => match o with PutContents c s => Some (c, s) | _ => None end) out.

Definition is_ascii (c : N) : Prop := (c < 128)%N.

(* ===================================================================== *)
(** ** Concrete inputs *)
(* ===================================================================== *)

(** A backend that reports every object absent, and one that refuses
    every read. *)
Definition missing : Error :=
  {| err_message := lit "NoSuchKey"; statusCode := Some 404%Z |}.
Definition refused : Error :=
  {| err_message := lit "Access Denied"; statusCode := Some 403%Z |}.
Definition missing_object : S3 := fun _ => S3Failure missing.
Definition refused_object : S3 := fun _ => S3Failure refused.

(** [<body><h1 id="title"><span contenteditable="true">Hello</span></h1>
    <p>static</p></body>] *)
Definition example_document : Element :=
  El "body" ∅ (lit "Hello static") [
    El "h1" {[ "id"%string := lit "title" ]} (lit "Hello") [
      El "span" {[ "contenteditable"%string := lit "true" ]} (lit "Hello") []];
    El "p" ∅ (lit "static") []].

Definition example_edits : list FieldEdit :=
  [{| id := lit "title"; innerText := lit "Hello" |}].

(** The props of a page outside preview mode: [{ isPreview: false }]. *)
Definition plain_props : Props :=
  {| isPreview := false; hasError := None; message := None;
     snapshotId := None; contents := None |}.

(** A bucket holding one snapshot, the edits of [example_edits]. *)
Definition example_bucket : gmap jsstring jsstring :=
  {[ lit "abc123.json" := JSON_stringify example_edits ]}.

(** [<body><p>static</p></body>]: a document with nothing to edit. *)
Definition static_document : Element :=
  El "body" ∅ (lit "static") [El "p" ∅ (lit "static") []].

(** A save that was answered by a non-ok response whose body could not be
    read. *)
Definition unreadable : FetchResult :=
  Response false (BodyFailure {| err_message := lit "body stream error"; statusCode := None |}).

(** The page after such an answer to its one save. *)
Definition stuck_page : Page :=
  {| home := with_sharing true initial; chains := [Stuck] |}.

(** A script element holding both markers, and one holding neither. *)
Definition player_script : jsstring :=
  lit "<script>var player = { source: 'https://example.org/live.m3u8', autoplay: true, mute: 0, poster: 'p.png' }</script>".
Definition plain_script : jsstring := lit "<script>var x = 1;</script>".


(* ===================================================================== *)
(** * Properties *)
(* ===================================================================== *)

Local Open Scope N_scope.

(* ===================================================================== *)
(** ** JSON: what [JSON.stringify] writes, [JSON.parse] reads back *)
(* ===================================================================== *)

Ltac Zify.zify_post_hook ::= Z.to_euclidean_division_equations.

Ltac nbool :=
  repeat match goal with
  | |- context [N.ltb ?a ?b] => destruct (N.ltb_spec a b)
  | |- context [N.leb ?a ?b] => destruct (N.leb_spec a b)
  | |- context [N.eqb ?a ?b] => destruct (N.eqb_spec a b)
  | H : context [N.ltb ?a ?b] |- _ => destruct (N.ltb_spec a b)
  | H : context [N.leb ?a ?b] |- _ => destruct (N.leb_spec a b)
  | H : context [N.eqb ?a ?b] |- _ => destruct (N.eqb_spec a b)
  end.

Lemma hex_value_digit n : n < 16 -> hex_value (hex_digit n) = Some n.
Proof.
  intros Hn. unfold hex_value, hex_digit.
  nbool; simpl; try (f_equal; lia); lia.
Qed.

Lemma hex4_escape c :
  code_unit c ->
  hex4 (hex_digit (c / 4096)) (hex_digit ((c / 256) mod 16))
       (hex_digit ((c / 16) mod 16)) (hex_digit (c mod 16)) = Some c.
Proof.
  unfold code_unit, hex4. intros Hc.
  rewrite !hex_value_digit; simpl.
  - f_equal. lia.
  - lia.
  - lia.
  - lia.
  - lia.
Qed.

Lemma parse_chars_escape c X :
  code_unit c -> parse_chars (UnicodeEscape c ++ X) = push c (parse_chars X).
Proof.
  intros Hc. unfold UnicodeEscape. cbn [app parse_chars].
  change (BACKSLASH =? QUOTE) with false. change (BACKSLASH =? BACKSLASH) with true.
  change (117 =? 117) with true. cbn match.
  rewrite hex4_escape by assumption. reflexivity.
Qed.

Lemma parse_chars_single c e X :
  single_escape c = Some e ->
  parse_chars (BACKSLASH :: e :: X) = push c (parse_chars X).
Proof.
  unfold single_escape. intros H.
  repeat match type of H with
  | (if ?a =? ?b then _ else _) = _ => destruct (N.eqb_spec a b)
  end; try discriminate; injection H as <-; subst c; reflexivity.
Qed.

Lemma parse_chars_plain c X :
  single_escape c = None -> is_control c = false ->
  parse_chars (c :: X) = push c (parse_chars X).
Proof.
  unfold single_escape. intros H Hctl. cbn [parse_chars]. rewrite Hctl.
  nbool; try discriminate; try contradiction; reflexivity.
Qed.

Lemma lead_not_special c :
  is_lead_surrogate c = true -> single_escape c = None /\ is_control c = false.
Proof.
  unfold is_lead_surrogate, single_escape, is_control, QUOTE, BACKSLASH.
  intros H. nbool; try discriminate; try lia; auto.
Qed.

Lemma trail_not_special c :
  is_trail_surrogate c = true -> single_escape c = None /\ is_control c = false.
Proof.
  unfold is_trail_surrogate, single_escape, is_control, QUOTE, BACKSLASH.
  intros H. nbool; try discriminate; try lia; auto.
Qed.

Lemma parse_chars_quote_body_bounded (n : nat) :
  forall s rest, (length s <= n)%nat -> well_formed s ->
    parse_chars (quote_body s ++ QUOTE :: rest) = Some (s, rest).
Proof.
  induction n as [|n IH]; intros s rest Hlen Hwf.
  { destruct s; [reflexivity | simpl in Hlen; lia]. }
  destruct s as [|c r]; [reflexivity|].
  apply Forall_cons in Hwf as [Hc Hr]. simpl in Hlen.
  cbn [quote_body].
  destruct (is_lead_surrogate c) eqn:Hlead.
  - destruct r as [|d r'].
    + rewrite parse_chars_escape by assumption. reflexivity.
    + simpl in Hlen. destruct (is_trail_surrogate d) eqn:Htrail.
      * apply Forall_cons in Hr as [Hd Hr'].
        destruct (lead_not_special c Hlead) as [Hs Hk].
        destruct (trail_not_special d Htrail) as [Hs' Hk'].
        cbn [app]. rewrite (parse_chars_plain c) by assumption.
        rewrite (parse_chars_plain d) by assumption.
        rewrite IH by (assumption || lia). reflexivity.
      * rewrite <- app_assoc, parse_chars_escape by assumption.
        rewrite IH by (assumption || (simpl; lia)). reflexivity.
  - destruct (single_escape c) as [e|] eqn:Hesc.
    + cbn [app]. rewrite (parse_chars_single c e) by assumption.
      rewrite IH by (assumption || lia). reflexivity.
    + destruct (is_control c || is_trail_surrogate c) eqn:Hu.
      * rewrite <- app_assoc, parse_chars_escape by assumption.
        rewrite IH by (assumption || lia). reflexivity.
      * apply orb_false_iff in Hu as [Hctl _]. cbn [app].
        rewrite parse_chars_plain by assumption.
        rewrite IH by (assumption || lia). reflexivity.
Qed.

Lemma parse_chars_quote_body s rest :
  well_formed s -> parse_chars (quote_body s ++ QUOTE :: rest) = Some (s, rest).
Proof. apply (parse_chars_quote_body_bounded (length s)). lia. Qed.

Lemma quote_app s X : QuoteJSONString s ++ X = QUOTE :: quote_body s ++ QUOTE :: X.
Proof. unfold QuoteJSONString. cbn [app]. rewrite <- app_assoc. reflexivity. Qed.

(** Evaluate the tests the parser makes on a known leading character. *)
Ltac known_char :=
  match goal with
  | |- context [N.eqb ?a ?b] =>
      tryif is_var a then fail else
      tryif is_var b then fail else
      let v := eval vm_compute in (N.eqb a b) in change (N.eqb a b) with v
  | |- context [is_ws ?a] =>
      tryif is_var a then fail else
      let v := eval vm_compute in (is_ws a) in change (is_ws a) with v
  end.

Ltac lex := repeat first [known_char | progress (cbn [skip_ws mbind option_bind]) | progress (cbv beta iota)].

Lemma parse_value_quoted n s X :
  well_formed s ->
  parse_value (S n) (QUOTE :: quote_body s ++ QUOTE :: X) = Some (VString s, X).
Proof.
  intros Hs. cbn [parse_value]. lex.
  rewrite parse_chars_quote_body by assumption. reflexivity.
Qed.

Lemma parse_members_more n k v X :
  well_formed k -> well_formed v ->
  parse_members (S (S n))
    (QUOTE :: quote_body k ++ QUOTE :: COLON :: QUOTE :: quote_body v ++ QUOTE :: COMMA :: X)
  = '(ms, rest) ← parse_members (S n) X; Some ((k, VString v) :: ms, rest).
Proof.
  intros Hk Hv. cbn [parse_members]. lex.
  rewrite parse_chars_quote_body by assumption. lex.
  rewrite parse_value_quoted by assumption. lex. reflexivity.
Qed.

Lemma parse_members_last n k v X :
  well_formed k -> well_formed v ->
  parse_members (S (S n))
    (QUOTE :: quote_body k ++ QUOTE :: COLON :: QUOTE :: quote_body v ++ QUOTE :: RBRACE :: X)
  = Some ([(k, VString v)], X).
Proof.
  intros Hk Hv. cbn [parse_members]. lex.
  rewrite parse_chars_quote_body by assumption. lex.
  rewrite parse_value_quoted by assumption. lex. reflexivity.
Qed.

Lemma well_formed_id : well_formed (lit "id").
Proof. repeat constructor. Qed.

Lemma well_formed_innerText : well_formed (lit "innerText").
Proof. repeat constructor. Qed.

Lemma stringify_edit_app e X :
  stringify_edit e ++ X =
  LBRACE :: QUOTE :: quote_body (lit "id") ++ QUOTE :: COLON ::
    QUOTE :: quote_body (id e) ++ QUOTE :: COMMA ::
    QUOTE :: quote_body (lit "innerText") ++ QUOTE :: COLON ::
    QUOTE :: quote_body (innerText e) ++ QUOTE :: RBRACE :: X.
Proof.
  unfold stringify_edit. unfold QuoteJSONString.
  repeat (progress cbn [app] || rewrite <- app_assoc). reflexivity.
Qed.

Lemma parse_value_edit n e X :
  well_formed_edit e ->
  parse_value (4 + n) (stringify_edit e ++ X) = Some (value_of_edit e, X).
Proof.
  intros [Hi Ht]. rewrite stringify_edit_app.
  change (4 + n)%nat with (S (S (S (S n)))).
  cbn [parse_value]. lex.
  rewrite parse_members_more by (assumption || apply well_formed_id).
  rewrite parse_members_last by (assumption || apply well_formed_innerText).
  reflexivity.
Qed.

Lemma join_comma_cons p ps X :
  ps <> [] -> join_comma (p :: ps) ++ X = p ++ COMMA :: join_comma ps ++ X.
Proof.
  intros Hps. destruct ps as [|q qs]; [contradiction|].
  cbn [join_comma]. rewrite <- app_assoc. reflexivity.
Qed.

Lemma stringify_edit_head e X : exists r, stringify_edit e ++ X = LBRACE :: r.
Proof. rewrite stringify_edit_app. eauto. Qed.

Lemma parse_elements_edits es : forall n X,
  es <> [] -> Forall well_formed_edit es ->
  parse_elements (length es + 4 + n) (join_comma (map stringify_edit es) ++ RBRACK :: X)
  = Some (map value_of_edit es, X).
Proof.
  induction es as [|e es IH]; intros n X Hne Hwf; [contradiction|].
  apply Forall_cons in Hwf as [He Hes].
  change (length (e :: es) + 4 + n)%nat with (S (length es + 4 + n)).
  destruct es as [|e' es'].
  - cbn [map join_comma parse_elements length Nat.add].
    rewrite (parse_value_edit n) by assumption.
    lex. reflexivity.
  - cbn [map]. rewrite join_comma_cons by discriminate.
    cbn [parse_elements].
    replace (length (e' :: es') + 4 + n)%nat with (4 + (length (e' :: es') + n))%nat by lia.
    rewrite parse_value_edit by assumption.
    lex.
    replace (4 + (length (e' :: es') + n))%nat with (length (e' :: es') + 4 + n)%nat by lia.
    change (stringify_edit e' :: map stringify_edit es') with (map stringify_edit (e' :: es')).
    rewrite IH by (assumption || discriminate). reflexivity.
Qed.

Lemma join_comma_head e es Y :
  exists r, join_comma (map stringify_edit (e :: es)) ++ Y = LBRACE :: r.
Proof.
  destruct es as [|e' es']; cbn [map join_comma].
  - apply stringify_edit_head.
  - rewrite <- app_assoc. apply stringify_edit_head.
Qed.

Lemma parse_value_edits es n X :
  Forall well_formed_edit es ->
  parse_value (S (length es + 4 + n)) (JSON_stringify es ++ X) = Some (value_of_edits es, X).
Proof.
  intros Hwf. unfold JSON_stringify, value_of_edits.
  cbn [app]. rewrite <- app_assoc. cbn [app parse_value]. lex.
  destruct es as [|e es].
  - cbn [map join_comma app]. lex. reflexivity.
  - assert (Hne : e :: es <> []) by discriminate.
    pose proof (parse_elements_edits (e :: es) n X Hne Hwf) as Hp.
    destruct (join_comma_head e es (RBRACK :: X)) as [r Hr].
    rewrite Hr in *. lex. rewrite Hp. reflexivity.
Qed.

Lemma length_join_comma es :
  (length es <= length (join_comma (map stringify_edit es)))%nat.
Proof.
  induction es as [|e es IH]; [reflexivity|].
  destruct es as [|e' es'].
  - cbn [map join_comma]. unfold stringify_edit. cbn [length]. apply le_n_S, Nat.le_0_l.
  - cbn [map] in *.
    change (join_comma (stringify_edit e :: stringify_edit e' :: map stringify_edit es'))
      with (stringify_edit e ++
            COMMA :: join_comma (stringify_edit e' :: map stringify_edit es')).
    rewrite length_app. cbn [length] in *. lia.
Qed.

Lemma JSON_parse_stringify es :
  Forall well_formed_edit es ->
  JSON_parse (JSON_stringify es) = Some (value_of_edits es).
Proof.
  intros Hwf. unfold JSON_parse.
  assert (Hfuel : exists n, parse_fuel (JSON_stringify es) = S (length es + 4 + n)).
  { unfold parse_fuel, JSON_stringify. cbn [length]. rewrite length_app.
    pose proof (length_join_comma es). cbn [length].
    exists (2 * length (join_comma (map stringify_edit es) ++ []) + 2 - length es - 1)%nat.
    rewrite app_nil_r. lia. }
  destruct Hfuel as [n ->].
  rewrite <- (app_nil_r (JSON_stringify es)).
  rewrite parse_value_edits by assumption. reflexivity.
Qed.

Lemma edit_of_value_of_edit e : edit_of_value (value_of_edit e) = Some e.
Proof. destruct e as [i t]. reflexivity. Qed.

Lemma edits_of_value_of_edits es : edits_of_value (value_of_edits es) = Some es.
Proof.
  unfold edits_of_value, value_of_edits.
  induction es as [|e es IH]; [reflexivity|].
  cbn [map mapM]. rewrite edit_of_value_of_edit. cbn. rewrite IH. reflexivity.
Qed.

(** *** The bound on nesting is never what makes [JSON.parse] fail *)

Lemma skip_ws_cons l c r : skip_ws l = c :: r -> (S (length r) <= length l)%nat.
Proof.
  induction l as [|a l IH]; cbn [skip_ws]; [discriminate|].
  destruct (is_ws a); cbn [length].
  - intros H. apply IH in H. lia.
  - intros [= <- <-]. lia.
Qed.

Lemma push_Some c r s rest :
  push c r = Some (s, rest) -> exists s', r = Some (s', rest).
Proof. destruct r as [[s' rest']|]; cbn; [intros [= <- <-]; eauto | discriminate]. Qed.

Lemma parse_chars_shorter_bounded (n : nat) : forall l s rest,
  (length l <= n)%nat -> parse_chars l = Some (s, rest) -> (length rest < length l)%nat.
Proof.
  induction n as [|n IH]; intros l s rest Hn H.
  { destruct l; [discriminate | cbn in Hn; lia]. }
  destruct l as [|c r]; [discriminate|]. cbn [parse_chars length] in *.
  destruct (c =? QUOTE). { injection H as <- <-. lia. }
  destruct (c =? BACKSLASH).
  - destruct r as [|e r']; [discriminate|]. cbn [length] in *.
    destruct (e =? 117).
    + destruct r' as [|h1 [|h2 [|h3 [|h4 r'']]]]; try discriminate. cbn [length] in *.
      destruct (hex4 h1 h2 h3 h4); [|discriminate].
      apply push_Some in H as [s' H]. apply IH in H; lia.
    + destruct (unescape e); [|discriminate].
      apply push_Some in H as [s' H]. apply IH in H; lia.
  - destruct (is_control c); [discriminate|].
    apply push_Some in H as [s' H]. apply IH in H; lia.
Qed.

Lemma parse_chars_shorter l s rest :
  parse_chars l = Some (s, rest) -> (length rest < length l)%nat.
Proof. apply (parse_chars_shorter_bounded (length l)). lia. Qed.

Lemma span_digits_length l : (length (span_digits l).2 <= length l)%nat.
Proof.
  induction l as [|c r IH]; cbn [span_digits]; [reflexivity|].
  destruct (is_digit c); [|reflexivity].
  destruct (span_digits r) as [ds rest]. cbn [snd length] in *. lia.
Qed.

Lemma scan_int_shorter l i rest :
  scan_int l = Some (i, rest) -> (length rest < length l)%nat.
Proof.
  unfold scan_int. destruct l as [|c r]; [discriminate|]. cbn [length].
  destruct (c =? ZERO); [intros [= <- <-]; lia|].
  destruct (is_digit c); [|discriminate].
  pose proof (span_digits_length r) as Hs. destruct (span_digits r) as [ds rest'].
  intros [= <- <-]. cbn [snd] in Hs. lia.
Qed.

Lemma scan_frac_length l f rest :
  scan_frac l = Some (f, rest) -> (length rest <= length l)%nat.
Proof.
  unfold scan_frac. destruct l as [|c r]; [intros [= <- <-]; lia|].
  destruct (c =? DOT); [|intros [= <- <-]; lia].
  pose proof (span_digits_length r) as Hs. destruct (span_digits r) as [[|d ds] rest'];
    [discriminate|]. intros [= <- <-]. cbn [snd length] in *. lia.
Qed.

Lemma scan_exp_length l e rest :
  scan_exp l = Some (e, rest) -> (length rest <= length l)%nat.
Proof.
  unfold scan_exp. destruct l as [|c r]; [intros [= <- <-]; lia|].
  destruct ((c =? 101) || (c =? 69)); [|intros [= <- <-]; lia].
  destruct r as [|s r'].
  - cbn. discriminate.
  - destruct ((s =? PLUS) || (s =? MINUS)).
    + pose proof (span_digits_length r') as Hs.
      destruct (span_digits r') as [[|d ds] rest']; [discriminate|].
      intros [= <- <-]. cbn [snd length] in *. lia.
    + pose proof (span_digits_length (s :: r')) as Hs.
      destruct (span_digits (s :: r')) as [[|d ds] rest']; [discriminate|].
      intros [= <- <-]. cbn [snd length] in *. lia.
Qed.

Lemma scan_number_shorter l tok rest :
  scan_number l = Some (tok, rest) -> (length rest < length l)%nat.
Proof.
  unfold scan_number.
  set (split := match l with
                | c :: r => if c =? MINUS then ([c], r) else ([], l)
                | [] => ([], l)
                end).
  assert (Hl : (length split.2 <= length l)%nat).
  { subst split. destruct l as [|c r]; [reflexivity|].
    destruct (c =? MINUS); cbn [snd length]; lia. }
  destruct split as [sign l1]. cbn [snd] in Hl. unfold mbind, option_bind.
  destruct (scan_int l1) as [[i l2]|] eqn:Hi; [|discriminate].
  destruct (scan_frac l2) as [[f l3]|] eqn:Hf; [|discriminate].
  destruct (scan_exp l3) as [[e l4]|] eqn:He; [|discriminate].
  intros [= <- <-]. apply scan_int_shorter in Hi. apply scan_frac_length in Hf.
  apply scan_exp_length in He. lia.
Qed.

Lemma strip_prefix_length p : forall l rest,
  strip_prefix p l = Some rest -> (length rest + length p = length l)%nat.
Proof.
  induction p as [|a p IH]; intros l rest; cbn [strip_prefix].
  - intros [= <-]. cbn. lia.
  - destruct l as [|b l]; [discriminate|]. destruct (a =? b); [|discriminate].
    intros H. apply IH in H. cbn [length]. lia.
Qed.

Lemma parse_shorter n :
  shorter (parse_value n) /\ shorter (parse_elements n) /\ shorter (parse_members n).
Proof.
  induction n as [|n (IHv & IHe & IHm)]; [repeat split; intros l a rest; discriminate|].
  repeat split; intros l a rest H.
  - cbn [parse_value] in H. unfold mbind, option_bind in H.
    destruct (skip_ws l) as [|c r] eqn:Hws; [discriminate|]. apply skip_ws_cons in Hws.
    destruct (c =? LBRACE).
    { destruct (skip_ws r) as [|c' r'] eqn:Hws'; [discriminate|]. apply skip_ws_cons in Hws'.
      destruct (c' =? RBRACE); [injection H as <- <-; lia|].
      destruct (parse_members n (c' :: r')) as [[ms rest']|] eqn:Hm; [|discriminate].
      injection H as <- <-. apply IHm in Hm. cbn [length] in Hm. lia. }
    destruct (c =? LBRACK).
    { destruct (skip_ws r) as [|c' r'] eqn:Hws'; [discriminate|]. apply skip_ws_cons in Hws'.
      destruct (c' =? RBRACK); [injection H as <- <-; lia|].
      destruct (parse_elements n (c' :: r')) as [[vs rest']|] eqn:Hm; [|discriminate].
      injection H as <- <-. apply IHe in Hm. cbn [length] in Hm. lia. }
    destruct (c =? QUOTE).
    { destruct (parse_chars r) as [[s rest']|] eqn:Hs; [|discriminate].
      injection H as <- <-. apply parse_chars_shorter in Hs. lia. }
    destruct (c =? 116).
    { destruct (strip_prefix (lit "true") (c :: r)) as [rest'|] eqn:Hs; [|discriminate].
      injection H as <- <-. apply strip_prefix_length in Hs. cbn [length] in Hs. 
      change (length (lit "true")) with 4%nat in Hs. lia. }
    destruct (c =? 102).
    { destruct (strip_prefix (lit "false") (c :: r)) as [rest'|] eqn:Hs; [|discriminate].
      injection H as <- <-. apply strip_prefix_length in Hs. cbn [length] in Hs.
      change (length (lit "false")) with 5%nat in Hs. lia. }
    destruct (c =? 110).
    { destruct (strip_prefix (lit "null") (c :: r)) as [rest'|] eqn:Hs; [|discriminate].
      injection H as <- <-. apply strip_prefix_length in Hs. cbn [length] in Hs.
      change (length (lit "null")) with 4%nat in Hs. lia. }
    destruct (scan_number (c :: r)) as [[tok rest']|] eqn:Hs; [|discriminate].
    injection H as <- <-. apply scan_number_shorter in Hs. cbn [length] in Hs. lia.
  - cbn [parse_elements] in H. unfold mbind, option_bind in H.
    destruct (parse_value n l) as [[v rest1]|] eqn:Hv; [|discriminate]. apply IHv in Hv.
    destruct (skip_ws rest1) as [|c r] eqn:Hws; [discriminate|]. apply skip_ws_cons in Hws.
    destruct (c =? COMMA).
    { destruct (parse_elements n r) as [[vs rest']|] eqn:He; [|discriminate].
      injection H as <- <-. apply IHe in He. lia. }
    destruct (c =? RBRACK); [|discriminate]. injection H as <- <-. lia.
  - cbn [parse_members] in H. unfold mbind, option_bind in H.
    destruct (skip_ws l) as [|q r] eqn:Hws; [discriminate|]. apply skip_ws_cons in Hws.
    destruct (q =? QUOTE); [|discriminate].
    destruct (parse_chars r) as [[k rest1]|] eqn:Hk; [|discriminate].
    apply parse_chars_shorter in Hk.
    destruct (skip_ws rest1) as [|c r1] eqn:Hws1; [discriminate|]. apply skip_ws_cons in Hws1.
    destruct (c =? COLON); [|discriminate].
    destruct (parse_value n r1) as [[v rest2]|] eqn:Hv; [|discriminate]. apply IHv in Hv.
    destruct (skip_ws rest2) as [|c' r2] eqn:Hws2; [discriminate|]. apply skip_ws_cons in Hws2.
    destruct (c' =? COMMA).
    { destruct (parse_members n r2) as [[ms rest']|] eqn:Hm; [|discriminate].
      injection H as <- <-. apply IHm in Hm. lia. }
    destruct (c' =? RBRACE); [|discriminate]. injection H as <- <-. lia.
Qed.

Lemma parse_stable n :
  stable parse_value 1 n /\ stable parse_elements 2 n /\ stable parse_members 2 n.
Proof.
  induction n as [|n (IHv & IHe & IHm)]; [repeat split; intros l Hl; lia|].
  destruct (parse_shorter n) as (Sv & _ & _).
  repeat split; intros l Hl.
  - assert (E : forall m, m = S n -> parse_value (S m) l = parse_value (S n) l);
      [|apply E; reflexivity].
    intros m Hm. cbn [parse_value].
    destruct (skip_ws l) as [|c r] eqn:Hws; [reflexivity|]. apply skip_ws_cons in Hws.
    destruct (skip_ws r) as [|c' r'] eqn:Hws'.
    + reflexivity.
    + apply skip_ws_cons in Hws'. subst m.
      rewrite (IHm (c' :: r')), (IHe (c' :: r')) by (cbn [length]; lia). reflexivity.
  - assert (E : forall m, m = S n -> parse_elements (S m) l = parse_elements (S n) l);
      [|apply E; reflexivity].
    intros m Hm. cbn [parse_elements]. subst m. rewrite (IHv l) by lia.
    destruct (parse_value n l) as [[v rest1]|] eqn:Hv; [|reflexivity]. apply Sv in Hv.
    cbn [mbind option_bind].
    destruct (skip_ws rest1) as [|c r] eqn:Hws; [reflexivity|]. apply skip_ws_cons in Hws.
    rewrite (IHe r) by lia. reflexivity.
  - assert (E : forall m, m = S n -> parse_members (S m) l = parse_members (S n) l);
      [|apply E; reflexivity].
    intros m Hm. cbn [parse_members].
    destruct (skip_ws l) as [|q r] eqn:Hws; [reflexivity|]. apply skip_ws_cons in Hws.
    destruct (q =? QUOTE); [|reflexivity].
    destruct (parse_chars r) as [[k rest1]|] eqn:Hk; [|reflexivity].
    apply parse_chars_shorter in Hk. cbn [mbind option_bind].
    destruct (skip_ws rest1) as [|c r1] eqn:Hws1; [reflexivity|]. apply skip_ws_cons in Hws1.
    destruct (c =? COLON); [|reflexivity]. subst m. rewrite (IHv r1) by lia.
    destruct (parse_value n r1) as [[v rest2]|] eqn:Hv; [|reflexivity]. apply Sv in Hv.
    cbn [mbind option_bind].
    destruct (skip_ws rest2) as [|c' r2] eqn:Hws2; [reflexivity|]. apply skip_ws_cons in Hws2.
    rewrite (IHm r2) by lia. reflexivity.
Qed.

(** The bound [parse_fuel] is never the reason for a failure: more of it
    changes nothing. *)
Theorem parse_fuel_suffices text n :
  (parse_fuel text <= n)%nat -> parse_value n text = parse_value (parse_fuel text) text.
Proof.
  intros Hn. replace n with (parse_fuel text + (n - parse_fuel text))%nat by lia.
  generalize (n - parse_fuel text)%nat as k. clear n Hn.
  induction k as [|k IH]; [rewrite Nat.add_0_r; reflexivity|].
  rewrite Nat.add_succ_r, <- IH.
  apply (parse_stable (parse_fuel text + k)). unfold parse_fuel. lia.
Qed.

Local Close Scope N_scope.

(* ===================================================================== *)
(** ** The selector and the captured edits *)
(* ===================================================================== *)

Lemma Element_nested_ind (P : Element -> Prop) :
  (forall t a x cs, Forall P cs -> P (El t a x cs)) -> forall e, P e.
Proof.
  intros H. fix IH 1. intros [t a x cs]. apply H.
  induction cs as [|c cs IHcs]; constructor; [apply IH | exact IHcs].
Qed.

Lemma select_from_unfold pm here e :
  select_from pm here e =
  (if pm && is_editable e then [here] else [])
  ++ select_children (has_id e) here 0 (el_children e).
Proof. destruct e. reflexivity. Qed.

Lemma elem_of_select_children pm here cs : forall k p,
  p ∈ select_children pm here k cs <->
  exists j c, cs !! j = Some c /\ p ∈ select_from pm (here ++ [k + j]) c.
Proof.
  induction cs as [|c cs IH]; intros k p; cbn [select_children].
  - split; [intros H; inversion H | intros (j & c & H & _); discriminate].
  - rewrite elem_of_app, IH. split.
    + intros [H | (j & c' & Hj & H)].
      * exists 0, c. rewrite Nat.add_0_r. auto.
      * exists (S j), c'. rewrite Nat.add_succ_r. auto.
    + intros (j & c' & Hj & H). destruct j as [|j].
      * left. rewrite Nat.add_0_r in H. cbn in Hj. congruence.
      * right. exists j, c'. rewrite Nat.add_succ_r in H. auto.
Qed.

Lemma element_at_app e q r :
  element_at e (q ++ r) = element_at e q ≫= fun c => element_at c r.
Proof.
  revert e. induction q as [|i q IH]; intros e; cbn [app element_at]; [reflexivity|].
  destruct (el_children e !! i) as [c|]; cbn; [apply IH | reflexivity].
Qed.

Lemma elem_of_select_from e : forall pm here p,
  p ∈ select_from pm here e <->
  (p = here /\ pm = true /\ is_editable e = true) \/
  (exists q i, p = here ++ q ++ [i] /\ region_below e q i).
Proof.
  induction e as [t a x cs IH] using Element_nested_ind.
  intros pm here p. rewrite select_from_unfold, elem_of_app, elem_of_select_children.
  set (e := El t a x cs). change (el_children e) with cs.
  split.
  - intros [H | (j & c & Hj & H)].
    + left. destruct pm, (is_editable e); cbn in H;
        try (inversion H; fail). apply list_elem_of_singleton in H. auto.
    + right. rewrite Forall_lookup in IH. apply (IH _ _ Hj) in H.
      cbn [Nat.add] in H. destruct H as [(-> & Hid & Hed) | (q & i & -> & par & el & Hq & Hi & Hp & He)].
      * exists [], j. split; [reflexivity|]. exists e, c. cbn. rewrite Hj. auto.
      * exists (j :: q), i. split; [rewrite <- !app_assoc; reflexivity|].
        exists par, el. cbn. change (el_children e) with cs. rewrite Hj. cbn. auto.
  - intros [(-> & -> & He) | (q & i & -> & par & el & Hq & Hi & Hp & He)].
    + left. rewrite He. cbn. apply list_elem_of_singleton. reflexivity.
    + right. rewrite Forall_lookup in IH. destruct q as [|j q].
      * cbn in Hq, Hi. injection Hq as <-. change (el_children e) with cs in Hi.
        destruct (cs !! i) as [c|] eqn:Hc; [|discriminate]. cbn in Hi. injection Hi as <-.
        exists i, c. split; [assumption|]. apply (IH _ _ Hc). left. auto.
      * cbn in Hq, Hi. change (el_children e) with cs in Hq, Hi.
        destruct (cs !! j) as [c|] eqn:Hc; [|discriminate]. cbn in Hq, Hi.
        exists j, c. split; [assumption|]. apply (IH _ _ Hc). right.
        exists q, i. split; [cbn; rewrite <- !app_assoc; reflexivity|].
        exists par, el. auto.
Qed.

Lemma select_from_prefix e pm here p :
  p ∈ select_from pm here e -> exists q, p = here ++ q.
Proof.
  rewrite elem_of_select_from. intros [(-> & _) | (q & i & -> & _)].
  - exists []. rewrite app_nil_r. reflexivity.
  - eauto.
Qed.

Lemma select_children_prefix pm here cs k p :
  p ∈ select_children pm here k cs -> exists j q, k <= j /\ p = here ++ j :: q.
Proof.
  rewrite elem_of_select_children. intros (j & c & _ & H).
  apply select_from_prefix in H as [q ->]. exists (k + j), q.
  split; [lia|]. rewrite <- app_assoc. reflexivity.
Qed.

Lemma NoDup_select_children pm here cs :
  Forall (fun c => forall pm here, NoDup (select_from pm here c)) cs ->
  forall k, NoDup (select_children pm here k cs).
Proof.
  induction 1 as [|c cs Hc Hcs IH]; intros k; cbn [select_children]; [constructor|].
  apply NoDup_app. split; [apply Hc|]. split; [|apply IH].
  intros p Hp Hp'. apply select_from_prefix in Hp as [q Hq].
  apply select_children_prefix in Hp' as (j & q' & Hj & Hq').
  rewrite Hq, <- app_assoc in Hq'. apply app_inv_head in Hq'.
  cbn in Hq'. injection Hq' as -> _. lia.
Qed.

Lemma NoDup_select_from e : forall pm here, NoDup (select_from pm here e).
Proof.
  induction e as [t a x cs IH] using Element_nested_ind. intros pm here.
  rewrite select_from_unfold. apply NoDup_app. split; [|split].
  - destruct (pm && _); [apply NoDup_singleton | constructor].
  - intros p Hp Hp'. apply select_children_prefix in Hp' as (j & q & _ & Hq).
    destruct (pm && _); [|inversion Hp]. apply list_elem_of_singleton in Hp. subst p.
    rewrite <- (app_nil_r here) in Hq at 1. apply app_inv_head in Hq. discriminate.
  - apply NoDup_select_children, IH.
Qed.

Lemma is_region_below document p :
  is_region document p <-> exists q i, p = q ++ [i] /\ region_below document q i.
Proof.
  unfold is_region, region_below, has_id, is_editable. split.
  - intros (q & i & par & el & -> & Hq & Hi & Hp & He). exists q, i.
    split; [reflexivity|]. exists par, el. rewrite !bool_decide_eq_true. auto.
  - intros (q & i & -> & par & el & Hq & Hi & Hp & He). exists q, i, par, el.
    rewrite !bool_decide_eq_true in *. auto.
Qed.

Lemma elem_of_querySelectorAll document p :
  p ∈ querySelectorAll document <-> is_region document p.
Proof.
  unfold querySelectorAll. rewrite elem_of_select_from, is_region_below. split.
  - intros [(_ & ? & _) | H]; [discriminate | exact H].
  - auto.
Qed.

Lemma parentNode_snoc (q : Path) i : parentNode (q ++ [i]) = q.
Proof. apply removelast_last. Qed.

Lemma captures_edit_of_node document p :
  is_region document p -> captures document p (edit_of_node document p).
Proof.
  intros (q & i & par & el & -> & Hq & Hi & [v Hv] & He).
  exists par, el. unfold edit_of_node. rewrite parentNode_snoc, Hq, Hi. cbn.
  unfold el_id. rewrite Hv. auto.
Qed.

(** C4.  The selector returns every editable region (an element with
    [contenteditable="true"] whose parent element carries an [id]) exactly
    once, and the captured list holds, position by position, one edit per
    selected node: the parent's id paired with the node's text. *)
Theorem capture_one_edit_per_region (document : Element) :
  NoDup (querySelectorAll document) /\
  (forall p, p ∈ querySelectorAll document <-> is_region document p) /\
  Forall2 (captures document) (querySelectorAll document) (persistContents document).
Proof.
  split; [apply NoDup_select_from|]. split; [apply elem_of_querySelectorAll|].
  unfold persistContents. apply Forall2_fmap_r, Forall_Forall2_diag, Forall_forall.
  intros p Hp. apply captures_edit_of_node, elem_of_querySelectorAll, Hp.
Qed.

(* ===================================================================== *)
(** ** Element trees *)
(* ===================================================================== *)

Lemma elements_of_Elem ty ps cs :
  elements_of (Elem ty ps cs) = (ty, ps) :: elements_of_all cs.
Proof. reflexivity. Qed.

Lemma elements_of_Fragment cs : elements_of (Fragment cs) = elements_of_all cs.
Proof. reflexivity. Qed.

Lemma elem_of_elements_of_all x c cs :
  c ∈ cs -> x ∈ elements_of c -> x ∈ elements_of_all cs.
Proof.
  induction 1 as [c cs | c c' cs Hc IH]; intros Hx; cbn [elements_of_all];
    apply elem_of_app; auto.
Qed.

Lemma subnode_elements a n x : subnode a n -> x ∈ elements_of a -> x ∈ elements_of n.
Proof.
  induction 1 as [| ty ps cs c Hc Hs IH | cs c Hc Hs IH]; intros Hx.
  - exact Hx.
  - rewrite elements_of_Elem. right. eapply elem_of_elements_of_all; eauto.
  - rewrite elements_of_Fragment. eapply elem_of_elements_of_all; eauto.
Qed.

Lemma subnode_type ty ps cs n : subnode (Elem ty ps cs) n -> ty ∈ types_in n.
Proof.
  intros H. unfold types_in. apply (list_elem_of_fmap_2 fst _ (ty, ps)).
  eapply subnode_elements; [exact H | rewrite elements_of_Elem; left].
Qed.

Section Properties.

Context (engine : Engine).

(* ===================================================================== *)
(** ** The save guard and the promise chain *)
(* ===================================================================== *)

Lemma share_busy document st :
  hasSaveRequest st = true -> share document st = (tt, st, []).
Proof. intros H. unfold share, bind, read. rewrite H. reflexivity. Qed.

Lemma share_idle document st :
  hasSaveRequest st = false ->
  share document st =
    (tt, with_sharing true st, [SetSharing true; Fetch (save_request document)]).
Proof. intros H. unfold share, bind, read. rewrite H. reflexivity. Qed.

Lemma settle_ending r st :
  settle engine r st =
  match ending engine r with
  | StoresError e =>
      (Fulfilled tt,
       {| currentSnapshotId := currentSnapshotId st; isEdit := isEdit st;
          hasSaveRequest := false; isSharingView := false; currentError := Some e |},
       [SetError (Some e); SetSharing false])
  | StoresSnapshotId v =>
      (Fulfilled tt,
       {| currentSnapshotId := v; isEdit := isEdit st;
          hasSaveRequest := false; isSharingView := false;
          currentError := currentError st |},
       [SetSnapshotId v; SetSharing false])
  | NeverSettles => (Pending, st, [])
  end.
Proof.
  destruct r as [e | [|] [text | e]];
    unfold ending, settle, bind, fetch_promise, then_, ret, res_json,
      reject_with_text, JSON_parse_or_throw, on_json; try reflexivity.
  destruct (JSON_parse text) as [v|]; [|reflexivity].
  destruct (get_property v (lit "snapshotId")); reflexivity.
Qed.

Lemma guarded_start : guarded start.
Proof. right. auto. Qed.

Lemma guarded_step pg ev pg' t :
  guarded pg -> step engine pg ev = Some (pg', t) -> guarded pg'.
Proof.
  intros Hg Hs. destruct ev as [document | r | | |]; cbn in Hs.
  - unfold on_home in Hs. destruct Hg as [[Hb [c Hc]] | [Hb Hc]].
    + rewrite share_busy in Hs by assumption. injection Hs as <- <-.
      left. cbn. rewrite Hc. eauto.
    + rewrite share_idle in Hs by assumption. injection Hs as <- <-.
      left. cbn. rewrite Hc. eauto.
  - destruct Hg as [[Hb [c Hc]] | [Hb Hc]]; rewrite Hc in Hs; [|discriminate].
    destruct c as [req|]; [|discriminate].
    rewrite settle_ending in Hs. destruct (ending engine r); injection Hs as <- <-.
    + right. auto.
    + right. auto.
    + left. cbn. eauto.
  - injection Hs as <- <-. unfold guarded in *. cbn. rewrite app_nil_r. exact Hg.
  - injection Hs as <- <-. unfold guarded in *. cbn. rewrite app_nil_r. exact Hg.
  - injection Hs as <- <-. unfold guarded in *. cbn. rewrite app_nil_r. exact Hg.
Qed.

Lemma guarded_run evs : forall pg pg' t,
  guarded pg -> run engine pg evs = Some (pg', t) -> guarded pg'.
Proof.
  induction evs as [|ev evs IH]; intros pg pg' t Hg Hr; cbn in Hr.
  - injection Hr as <- <-. exact Hg.
  - destruct (step engine pg ev) as [[pg1 t1]|] eqn:Hs; [|discriminate].
    destruct (run engine pg1 evs) as [[pg2 t2]|] eqn:Hr'; [|discriminate].
    injection Hr as <- <-. eapply IH; [|exact Hr']. eapply guarded_step; eauto.
Qed.

Lemma guarded_reachable pg : reachable engine pg -> guarded pg.
Proof. intros (evs & t & Hr). eapply guarded_run; [apply guarded_start | exact Hr]. Qed.

Lemma run_shares_busy documents : forall pg,
  hasSaveRequest (home pg) = true ->
  run engine pg (map EvShare documents) = Some (pg, []).
Proof.
  induction documents as [|d ds IH]; intros pg Hb; cbn; [reflexivity|].
  unfold on_home. rewrite share_busy by assumption. cbn. rewrite app_nil_r.
  replace {| home := home pg; chains := chains pg |} with pg by (destruct pg; reflexivity).
  rewrite IH by assumption. reflexivity.
Qed.

(** C3.  On a page reached by any sequence of events, while a save has not
    settled any sequence of share invocations leaves the page as it is and
    performs no action (no request, no state change); and that unsettled
    save is the only one. *)
Theorem share_ignored_while_in_flight (pg : Page) (documents : list Element) :
  reachable engine pg -> chains pg <> [] ->
  run engine pg (map EvShare documents) = Some (pg, []) /\ length (chains pg) = 1.
Proof.
  intros Hr Hne. destruct (guarded_reachable pg Hr) as [[Hb [c Hc]] | [_ Hc]];
    [|contradiction].
  split; [apply run_shares_busy, Hb | rewrite Hc; reflexivity].
Qed.



(* ===================================================================== *)
(** ** Rendering *)
(* ===================================================================== *)

Lemma elements_of_child v : elements_of (child v) = [].
Proof. destruct v; reflexivity. Qed.

Lemma types_in_Home_plain props st :
  isPreview props = false -> hasError props <> Some true ->
  "aside"%string ∉ types_in (Home engine props st).
Proof.
  intros Hp He. unfold types_in, Home, preview_or_error. rewrite Hp.
  assert (Hf : truthy engine (value_of_option_bool (hasError props)) = false).
  { destruct (hasError props) as [[|]|]; [contradiction | reflexivity | reflexivity]. }
  rewrite Hf. unfold share_link_dialog, error_dialog.
  destruct (currentError st), (truthy engine (currentSnapshotId st)), (isEdit st);
    cbn [elements_of app]; rewrite ?elements_of_child;
    apply (bool_decide_unpack _); vm_compute; exact I.
Qed.


Lemma layout_subnode props st :
  subnode
    (Elem "div" [("className"%string, PString (lit "layout"))]
       [if truthy engine (preview_or_error props) then preview_bar
        else child (preview_or_error props);
        if truthy engine (value_of_option_bool (hasError props))
        then error_page (message props)
        else Content (isEdit st) (edits_of props)])
    (Home engine props st).
Proof.
  unfold Home. eapply sub_frag; [|apply sub_here].
  do 3 apply list_elem_of_further. apply list_elem_of_here.
Qed.

Lemma subnode_trans a b c : subnode a b -> subnode b c -> subnode a c.
Proof.
  intros Hab Hbc. induction Hbc as [| ty ps cs c' Hc Hs IH | cs c' Hc Hs IH].
  - exact Hab.
  - eapply sub_elem; eauto.
  - eapply sub_frag; eauto.
Qed.

Lemma preview_bar_shown props st :
  truthy engine (preview_or_error props) = true ->
  subnode preview_bar (Home engine props st).
Proof.
  intros Ht. eapply subnode_trans; [|apply layout_subnode]. rewrite Ht.
  eapply sub_elem; [apply list_elem_of_here | apply sub_here].
Qed.

Lemma truthy_preview_or_error props :
  truthy engine (preview_or_error props) = true <->
  isPreview props = true \/ hasError props = Some true.
Proof.
  unfold preview_or_error.
  destruct (isPreview props), (hasError props) as [[|]|]; cbn; intuition congruence.
Qed.

(** C7.  The preview bar is in the output of [Home] exactly when the props
    are in preview mode or carry an error; the bar links to [/api/exit]. *)
Theorem preview_bar_iff_preview_or_error (props : Props) (st : HomeState) :
  (subnode preview_bar (Home engine props st) <->
   isPreview props = true \/ hasError props = Some true) /\
  subnode (Elem "a" [("href"%string, PString (lit "/api/exit"))] [Text (lit "Preview Mode")])
    preview_bar.
Proof.
  split; [split|].
  - intros Hs. destruct (isPreview props) eqn:Hp; [auto|].
    destruct (decide (hasError props = Some true)) as [|He]; [auto|].
    exfalso. eapply (types_in_Home_plain props st Hp He).
    eapply subnode_type. exact Hs.
  - intros H. apply preview_bar_shown, truthy_preview_or_error, H.
  - eapply sub_elem; [apply list_elem_of_here | apply sub_here].
Qed.

Lemma Malleable_edits_Home props st :
  Forall (fun el => el.1 = "Malleable"%string ->
                    prop "edits" el.2 = Some (PValue (edits_of props)))
    (elements_of (Home engine props st)).
Proof.
  unfold Home, share_link_dialog, error_dialog.
  generalize (edits_of props) as edits. intros edits.
  destruct (truthy engine (preview_or_error props)),
    (truthy engine (value_of_option_bool (hasError props))),
    (currentError st), (truthy engine (currentSnapshotId st)), (isEdit st);
    unfold Content, Malleable, feature, anchor, SPACE, error_page, preview_bar;
    cbn [elements_of app]; rewrite ?elements_of_child; cbn [app];
    repeat (match goal with
            | |- Forall _ (_ :: _) =>
                constructor;
                [cbn [fst snd]; intros Hty; solve [discriminate Hty | reflexivity]|]
            end);
    constructor.
Qed.

(** C8.  With [isPreview] false the overlay is empty: every [Malleable] in
    the output receives the empty edit list, and unless the props carry an
    error the layout holds the base [Content] over the empty list. *)
Theorem canonical_render_has_empty_overlay (props : Props) (st : HomeState) :
  isPreview props = false ->
  edits_of props = VArray [] /\
  Forall (fun el => el.1 = "Malleable"%string ->
                    prop "edits" el.2 = Some (PValue (VArray [])))
    (elements_of (Home engine props st)) /\
  (hasError props <> Some true ->
   subnode (Content (isEdit st) (VArray [])) (Home engine props st)).
Proof.
  intros Hp. assert (He : edits_of props = VArray []).
  { unfold edits_of. rewrite Hp. reflexivity. }
  split; [exact He|]. split.
  - rewrite <- He. apply Malleable_edits_Home.
  - intros Hne. eapply subnode_trans; [|apply layout_subnode].
    assert (Hf : truthy engine (value_of_option_bool (hasError props)) = false).
    { destruct (hasError props) as [[|]|]; [contradiction | reflexivity | reflexivity]. }
    rewrite Hf, He. eapply sub_elem; [|apply sub_here].
    apply list_elem_of_further, list_elem_of_here.
Qed.

Lemma load_failure_throws s3 sid code :
  load_failure s3 sid code ->
  exists e, load_snapshot engine s3 sid = Throw e /\ statusCode e = code.
Proof.
  intros [e He | b Hb Hp]; unfold load_snapshot, getObject, JSON_parse_or_throw.
  - rewrite He. eauto.
  - rewrite Hb. cbn [bind_result]. rewrite Hp. eauto.
Qed.

Lemma getStaticProps_failure s3 pd code :
  load_failure s3 (pd_snapshotId pd) code ->
  getStaticProps engine s3 true pd =
    {| isPreview := false; hasError := Some true;
       message := Some (if decide (code = Some 403%Z) then NOT_EXIST else S3_ERROR);
       snapshotId := None; contents := None |}.
Proof.
  intros H. apply load_failure_throws in H as (e & He & <-).
  unfold getStaticProps. rewrite He. reflexivity.
Qed.

Lemma getStaticProps_cases s3 preview pd :
  let props := getStaticProps engine s3 preview pd in
  (isPreview props = true /\ hasError props = None) \/
  (isPreview props = false /\ hasError props = Some true /\ preview = true /\
   exists code, load_failure s3 (pd_snapshotId pd) code) \/
  (isPreview props = false /\ hasError props = None /\ preview = false).
Proof.
  unfold getStaticProps. destruct preview; [|auto].
  unfold load_snapshot, getObject, JSON_parse_or_throw.
  destruct (s3 (pd_snapshotId pd ++ lit ".json")) as [b|e] eqn:Hs; cbn [bind_result].
  - destruct (JSON_parse b) as [v|] eqn:Hv; cbn [bind_result]; [auto|].
    right. left. repeat split; try reflexivity. exists None. eapply malformed_body; eauto.
  - right. left. repeat split; try reflexivity. exists (statusCode e).
    apply backend_failure. exact Hs.
Qed.




(** C10.  In the props [getStaticProps] returns, an error implies
    [isPreview] false; in every error or non-preview state the overlay is
    empty and the preview bar depends on [hasError] alone; and a failed
    preview load yields exactly such props, with the bar shown. *)
Theorem error_props_report_non_preview
    (s3 : S3) (preview : bool) (pd : PreviewData) (st : HomeState) :
  let props := getStaticProps engine s3 preview pd in
  (hasError props = Some true -> isPreview props = false) /\
  (hasError props = Some true \/ isPreview props = false -> edits_of props = VArray []) /\
  (isPreview props = false -> preview_or_error props = value_of_option_bool (hasError props)) /\
  (forall code, preview = true -> load_failure s3 (pd_snapshotId pd) code ->
     hasError props = Some true /\ isPreview props = false /\
     subnode preview_bar (Home engine props st)).
Proof.
  intros props.
  assert (H1 : hasError props = Some true -> isPreview props = false).
  { destruct (getStaticProps_cases s3 preview pd) as [[_ H] | [[H _] | [H _]]];
      fold props in H; [congruence | auto | auto]. }
  split; [exact H1|]. split; [|split].
  - intros H. unfold edits_of. destruct H as [H|H]; [rewrite (H1 H) | rewrite H]; reflexivity.
  - intros H. unfold preview_or_error. rewrite H. reflexivity.
  - intros code -> Hf. subst props. rewrite (getStaticProps_failure _ _ _ Hf).
    split; [reflexivity|]. split; [reflexivity|]. apply preview_bar_shown. reflexivity.
Qed.

(* ===================================================================== *)
(** ** Save, then load *)
(* ===================================================================== *)

Lemma s3_of_insert bucket absent Key blob :
  s3_of (<[Key := blob]> bucket) absent Key = S3Object blob.
Proof. unfold s3_of. rewrite lookup_insert_eq. reflexivity. Qed.

(** C6.  Saving the serialization of well-formed edits and loading the
    snapshot back in preview mode yields contents that decode to the same
    edits, hence to the same overlay from id to text; these contents are
    the edit list [Home] hands to every region. *)
Theorem save_then_load_round_trip
    (es : list FieldEdit) (fresh : jsstring)
    (bucket : gmap jsstring jsstring) (absent : Error) :
  Forall well_formed_edit es ->
  exists bucket',
    api_save fresh (JSON_stringify es) bucket = Some (bucket', fresh) /\
    let props :=
      getStaticProps engine (s3_of bucket' absent) true {| pd_snapshotId := fresh |} in
    isPreview props = true /\
    contents props = Some (value_of_edits es) /\
    edits_of props = value_of_edits es /\
    contents props ≫= edits_of_value = Some es /\
    overlay <$> (contents props ≫= edits_of_value) = Some (overlay es).
Proof.
  intros Hwf. eexists. split.
  - unfold api_save. rewrite JSON_parse_stringify by assumption.
    cbn [mbind option_bind]. rewrite edits_of_value_of_edits. reflexivity.
  - cbn zeta. unfold getStaticProps, load_snapshot, getObject, JSON_parse_or_throw.
    cbn [pd_snapshotId]. rewrite s3_of_insert. cbn [bind_result].
    rewrite JSON_parse_stringify by assumption.
    unfold edits_of. cbn [bind_result isPreview contents].
    cbn [mbind option_bind default]. rewrite edits_of_value_of_edits. auto.
Qed.

(* ===================================================================== *)
(** ** What [getStaticProps] returns *)
(* ===================================================================== *)

(** X1.  The fields of the props [getStaticProps] returns go together: a
    message is present exactly when [hasError] is true, contents exactly
    when [isPreview] is true, and the snapshot id is the requested one in a
    preview and absent otherwise; [hasError] is never false; preview props
    and error props come only from a preview request; and a message is one
    of the two fixed texts. *)
Theorem props_fields_go_together (s3 : S3) (preview : bool) (pd : PreviewData) :
  let props := getStaticProps engine s3 preview pd in
  (is_Some (message props) <-> hasError props = Some true) /\
  (is_Some (contents props) <-> isPreview props = true) /\
  snapshotId props = (if isPreview props then Some (pd_snapshotId pd) else None) /\
  hasError props <> Some false /\
  (isPreview props = true \/ hasError props = Some true -> preview = true) /\
  (message props = None \/ message props = Some NOT_EXIST \/ message props = Some S3_ERROR).
Proof.
  unfold getStaticProps. destruct preview; cbn zeta.
  - unfold load_snapshot, getObject, JSON_parse_or_throw.
    destruct (s3 _) as [b|e]; cbn [bind_result].
    + destruct (JSON_parse b) as [v|]; cbn [bind_result];
        cbn [message hasError contents isPreview snapshotId];
        rewrite ?is_Some_alt; repeat split; try tauto; try congruence; eauto.
    + cbn [message hasError contents isPreview snapshotId].
      rewrite ?is_Some_alt; repeat split; try tauto; try congruence.
      destruct (decide _); auto.
  - cbn [message hasError contents isPreview snapshotId].
    rewrite ?is_Some_alt; repeat split; try tauto; try congruence; intuition congruence.
Qed.

(** X2.  [getStaticProps] looks at no object of the store but the one
    under the key [snapshotId + .json], and at none outside preview mode:
    two stores that answer alike for that key give the same props. *)
Theorem load_reads_one_object (s3 s3' : S3) (preview : bool) (pd : PreviewData) :
  (preview = true ->
   s3 (pd_snapshotId pd ++ lit ".json") = s3' (pd_snapshotId pd ++ lit ".json")) ->
  getStaticProps engine s3 preview pd = getStaticProps engine s3' preview pd.
Proof.
  intros H. unfold getStaticProps. destruct preview; [|reflexivity].
  unfold load_snapshot, getObject. cbn zeta. rewrite (H eq_refl). reflexivity.
Qed.

(* ===================================================================== *)
(** ** The regions, the toolbars and the dialogs *)
(* ===================================================================== *)

Ltac decided := apply (bool_decide_unpack _); vm_compute; exact I.

(** [x ∈ l <-> b = c] for a list and booleans that are known. *)
Ltac mem_iff :=
  split;
  [ let Hin := fresh in intros Hin; first [reflexivity | exfalso; revert Hin; decided]
  | let Hb := fresh in intros Hb; first [decided | discriminate Hb] ].

(** Split on everything [Home] branches on and lay its elements out. *)
Ltac home_cases props st :=
  let els := fresh "els" in
  let E := fresh "E" in
  unfold region_ids; unfold types_in, regions;
  remember (elements_of (Home engine props st)) as els eqn:E;
  unfold Home, share_link_dialog, error_dialog in E;
  destruct (truthy engine (preview_or_error props)) eqn:Hbar,
    (truthy engine (value_of_option_bool (hasError props))) eqn:Herr,
    (currentError st) as [err|] eqn:Hce,
    (truthy engine (currentSnapshotId st)) eqn:Hsid,
    (isEdit st) eqn:Hed;
  unfold Content, Malleable, feature, anchor, SPACE, error_page, preview_bar in E;
  cbn [elements_of app] in E; rewrite ?elements_of_child in E; cbn [app] in E;
  subst els.

Lemma regions_Forall (P : list (string * PropVal) -> Prop) n :
  Forall (fun el => el.1 = "Malleable"%string -> P el.2) (elements_of n) ->
  Forall P (regions n).
Proof.
  unfold regions. induction 1 as [|el els Hel _ IH]; cbn; [constructor|].
  destruct (decide (el.1 = "Malleable"%string)); [constructor; auto | exact IH].
Qed.

Lemma regions_count props st :
  length (regions (Home engine props st)) =
  if truthy engine (value_of_option_bool (hasError props)) then 0 else 14.
Proof. home_cases props st; vm_compute; reflexivity. Qed.

Lemma region_ids_Home props st :
  NoDup (region_ids (Home engine props st)) /\
  length (region_ids (Home engine props st)) = length (regions (Home engine props st)).
Proof. home_cases props st; (split; [decided | vm_compute; reflexivity]). Qed.

Lemma Malleable_isActive_Home props st :
  Forall (fun el => el.1 = "Malleable"%string ->
                    prop "isActive" el.2 = Some (PBool (isEdit st)))
    (elements_of (Home engine props st)).
Proof.
  home_cases props st;
    repeat (match goal with
            | |- Forall _ (_ :: _) =>
                constructor;
                [cbn [fst snd]; intros Hty; solve [discriminate Hty | reflexivity]|]
            end);
    constructor.
Qed.

(** X3.  Whatever the props and the state, [Home] renders either no
    [Malleable] region (on the error page) or fourteen; their ids are
    pairwise distinct, every one has an id, and all get the same [isActive]
    (the edit mode) and the same [edits]. *)
Theorem regions_are_distinct_and_switch_together (props : Props) (st : HomeState) :
  NoDup (region_ids (Home engine props st)) /\
  length (region_ids (Home engine props st)) = length (regions (Home engine props st)) /\
  length (regions (Home engine props st)) =
    (if truthy engine (value_of_option_bool (hasError props)) then 0 else 14) /\
  Forall (fun ps => prop "isActive" ps = Some (PBool (isEdit st)) /\
                    prop "edits" ps = Some (PValue (edits_of props)))
    (regions (Home engine props st)).
Proof.
  destruct (region_ids_Home props st) as [Hn Hl].
  split; [exact Hn|]. split; [exact Hl|]. split; [apply regions_count|].
  apply regions_Forall.
  pose proof (Malleable_isActive_Home props st) as Ha.
  pose proof (Malleable_edits_Home props st) as He.
  rewrite Forall_forall in *. intros el Hel Hty. split; [apply Ha | apply He]; auto.
Qed.


(** X4.  When the object is there and its body parses, [getStaticProps]
    returns preview props with the parsed value, and [Home] renders the
    layout with the preview bar and the content, whose fourteen regions all
    receive that very value as [edits]. *)
Theorem loaded_preview_renders_contents
    (s3 : S3) (pd : PreviewData) (b : jsstring) (v : Value) (st : HomeState) :
  s3 (pd_snapshotId pd ++ lit ".json") = S3Object b ->
  JSON_parse b = Some v ->
  let props := getStaticProps engine s3 true pd in
  props = {| isPreview := true; hasError := None; message := None;
             snapshotId := Some (pd_snapshotId pd); contents := Some v |} /\
  subnode
    (Elem "div" [("className"%string, PString (lit "layout"))]
       [preview_bar; Content (isEdit st) v])
    (Home engine props st) /\
  length (regions (Home engine props st)) = 14 /\
  Forall (fun ps => prop "edits" ps = Some (PValue v)) (regions (Home engine props st)).
Proof.
  intros Hs Hv props.
  assert (Hp : props = {| isPreview := true; hasError := None; message := None;
                          snapshotId := Some (pd_snapshotId pd); contents := Some v |}).
  { subst props. unfold getStaticProps, load_snapshot, getObject, JSON_parse_or_throw.
    cbn zeta. rewrite Hs. cbn [bind_result]. rewrite Hv. reflexivity. }
  split; [exact Hp|]. rewrite Hp. split; [|split].
  - apply (layout_subnode
             {| isPreview := true; hasError := None; message := None;
                snapshotId := Some (pd_snapshotId pd); contents := Some v |} st).
  - rewrite regions_count. reflexivity.
  - apply regions_Forall.
    apply (Malleable_edits_Home
             {| isPreview := true; hasError := None; message := None;
                snapshotId := Some (pd_snapshotId pd); contents := Some v |} st).
Qed.


Lemma pre_subnode props st e :
  currentError st = Some e ->
  subnode (Elem "pre" [] [Text (err_message e)]) (Home engine props st).
Proof.
  intros He. unfold Home, error_dialog. rewrite He.
  eapply sub_frag; [apply list_elem_of_further, list_elem_of_here|].
  eapply sub_elem; [apply list_elem_of_further, list_elem_of_here | apply sub_here].
Qed.

(** X6.  The two dialogs follow the state alone, whatever the props: the
    error dialog is rendered exactly when an error is held and shows its
    message in a [pre]; the share-link dialog is rendered exactly when the
    held snapshot id is truthy and is given that id and [clearSnapshot]. *)
Theorem dialogs_follow_state (props : Props) (st : HomeState) :
  ("ErrorDialog"%string ∈ types_in (Home engine props st) <-> currentError st <> None) /\
  (forall e, currentError st = Some e ->
     subnode (Elem "pre" [] [Text (err_message e)]) (Home engine props st)) /\
  ("ShareLinkDialog"%string ∈ types_in (Home engine props st) <->
   truthy engine (currentSnapshotId st) = true) /\
  (truthy engine (currentSnapshotId st) = true ->
   ("ShareLinkDialog"%string,
    [("snapshotId"%string, PValue (currentSnapshotId st));
     ("onExit"%string, PHandler h_clearSnapshot)])
   ∈ elements_of (Home engine props st)).
Proof.
  split; [|split; [|split]].
  - home_cases props st;
      (split; [intros Hin; first [discriminate | exfalso; revert Hin; decided]
              | intros Hne; first [decided | contradiction]]).
  - intros e He. apply pre_subnode, He.
  - home_cases props st; mem_iff.
  - intros Ht. unfold Home, share_link_dialog. rewrite Ht.
    rewrite elements_of_Fragment. cbn [elements_of_all].
    apply elem_of_app. right. apply elem_of_app. right. apply elem_of_app. left.
    rewrite elements_of_Elem. left.
Qed.

(** X7.  [onClearError] and [clearSnapshot] each take their own dialog
    off the page, by one state update, and leave every other cell of the
    state, the save guard included, as it was. *)
Theorem dismissing_a_dialog_changes_nothing_else (props : Props) (st : HomeState) :
  let st1 := (onClearError st).1.2 in
  let st2 := (clearSnapshot st).1.2 in
  ("ErrorDialog"%string ∉ types_in (Home engine props st1)) /\
  ("ShareLinkDialog"%string ∉ types_in (Home engine props st2)) /\
  (currentSnapshotId st1 = currentSnapshotId st /\ isEdit st1 = isEdit st /\
   hasSaveRequest st1 = hasSaveRequest st /\ isSharingView st1 = isSharingView st) /\
  (currentError st2 = currentError st /\ isEdit st2 = isEdit st /\
   hasSaveRequest st2 = hasSaveRequest st /\ isSharingView st2 = isSharingView st) /\
  (onClearError st).2 = [SetError None] /\
  (clearSnapshot st).2 = [SetSnapshotId VNull].
Proof.
  cbn zeta. split; [|split].
  - set (st1 := (onClearError st).1.2).
    assert (H1 : currentError st1 = None) by reflexivity. clearbody st1.
    home_cases props st1; first [congruence | decided].
  - set (st2 := (clearSnapshot st).1.2).
    assert (H2 : truthy engine (currentSnapshotId st2) = false) by reflexivity.
    clearbody st2. home_cases props st2; first [congruence | decided].
  - repeat split.
Qed.

(** X8.  An ok response ends the save with the guard cleared whatever
    its body holds: a body that is not JSON, or the JSON [null], becomes the
    error shown and leaves the snapshot id alone; a body without a
    [snapshotId] stores [undefined], shows no error and opens no share-link
    dialog. *)
Theorem ok_response_without_usable_body
    (st : HomeState) (text : jsstring) (props : Props) :
  let st' := (settle engine (Response true (BodyText text)) st).1.2 in
  hasSaveRequest st' = false /\
  (JSON_parse text = None ->
   currentError st'
     = Some {| err_message := syntax_error_message engine text; statusCode := None |} /\
   currentSnapshotId st' = currentSnapshotId st) /\
  (JSON_parse text = Some VNull ->
   currentError st'
     = Some {| err_message := type_error_message engine VNull; statusCode := None |} /\
   currentSnapshotId st' = currentSnapshotId st) /\
  (forall v, JSON_parse text = Some v ->
     get_property v (lit "snapshotId") = Some VUndefined ->
     currentSnapshotId st' = VUndefined /\ currentError st' = currentError st /\
     "ShareLinkDialog"%string ∉ types_in (Home engine props st')).
Proof.
  cbn zeta. rewrite settle_ending. unfold ending.
  destruct (JSON_parse text) as [v|] eqn:Hv; cbv beta iota.
  - destruct (get_property v (lit "snapshotId")) as [sid|] eqn:Hg; cbv beta iota;
      cbn [fst snd hasSaveRequest currentError currentSnapshotId].
    + split; [reflexivity|]. split; [discriminate|]. split.
      * intros [= ->]. discriminate.
      * intros v' [= <-] Hu. rewrite Hg in Hu. injection Hu as ->.
        split; [reflexivity|]. split; [reflexivity|].
        match goal with |- _ ∉ types_in (Home _ _ ?s) => set (st' := s) end.
        assert (H2 : truthy engine (currentSnapshotId st') = false) by reflexivity.
        clearbody st'. home_cases props st'; first [congruence | decided].
    + split; [reflexivity|]. split; [discriminate|]. split.
      * intros [= ->]. auto.
      * intros v' [= <-]. congruence.
  - cbn [fst snd hasSaveRequest currentError currentSnapshotId].
    split; [reflexivity|]. split; [auto|]. split; [discriminate|]. intros v' [=].
Qed.

(* ===================================================================== *)
(** ** The page over time *)
(* ===================================================================== *)


Lemma synced_step pg ev pg' t :
  synced pg -> step engine pg ev = Some (pg', t) -> synced pg'.
Proof.
  unfold synced. intros Hs Hstep. destruct ev as [document | r | | |]; cbn in Hstep.
  - unfold on_home in Hstep. destruct (hasSaveRequest (home pg)) eqn:Hb.
    + rewrite share_busy in Hstep by assumption. injection Hstep as <- <-. cbn. congruence.
    + rewrite share_idle in Hstep by assumption. injection Hstep as <- <-. reflexivity.
  - destruct (chains pg) as [|[req|] rest]; try discriminate.
    rewrite settle_ending in Hstep. destruct (ending engine r); injection Hstep as <- <-;
      first [reflexivity | exact Hs].
  - injection Hstep as <- <-. exact Hs.
  - injection Hstep as <- <-. exact Hs.
  - injection Hstep as <- <-. exact Hs.
Qed.

Lemma synced_run evs : forall pg pg' t,
  synced pg -> run engine pg evs = Some (pg', t) -> synced pg'.
Proof.
  induction evs as [|ev evs IH]; intros pg pg' t Hg Hr; cbn in Hr.
  - injection Hr as <- <-. exact Hg.
  - destruct (step engine pg ev) as [[pg1 t1]|] eqn:Hs; [|discriminate].
    destruct (run engine pg1 evs) as [[pg2 t2]|] eqn:Hr'; [|discriminate].
    injection Hr as <- <-. eapply IH; [|exact Hr']. eapply synced_step; eauto.
Qed.

(** X9.  On every page reached from the start the state cell behind
    the busy indicator equals the save guard, it is set exactly while a save
    has not settled, and in edit mode the [Snapshot] toolbar is rendered
    with that value as [isSharing]. *)
Theorem busy_indicator_tracks_unsettled_save (pg : Page) (props : Props) :
  reachable engine pg ->
  isSharingView (home pg) = hasSaveRequest (home pg) /\
  (isSharingView (home pg) = true <-> chains pg <> []) /\
  (isEdit (home pg) = true ->
   subnode
     (Elem "Snapshot"
        [("onCancel"%string, PHandler h_toggleEdit); ("onShare"%string, PHandler h_share);
         ("isSharing"%string, PBool (bool_decide (chains pg <> [])))] [])
     (Home engine props (home pg))).
Proof.
  intros Hr.
  assert (Hs : synced pg).
  { destruct Hr as (evs & t & Hrun). eapply synced_run; [|exact Hrun]. reflexivity. }
  assert (Hb : isSharingView (home pg) = true <-> chains pg <> []).
  { unfold synced in Hs. rewrite Hs.
    destruct (guarded_reachable pg Hr) as [[Hg [c Hc]] | [Hg Hc]]; rewrite Hg, Hc;
      split; congruence. }
  split; [exact Hs|]. split; [exact Hb|].
  intros He. unfold Home. rewrite He.
  replace (bool_decide (chains pg <> [])) with (isSharingView (home pg)).
  - eapply sub_frag; [do 4 apply list_elem_of_further; apply list_elem_of_here|].
    eapply sub_frag; [apply list_elem_of_here | apply sub_here].
  - destruct (isSharingView (home pg)); symmetry.
    + apply bool_decide_eq_true, Hb. reflexivity.
    + apply bool_decide_eq_false. intros Hne. apply Hb in Hne. discriminate.
Qed.

Lemma fetches_app t1 t2 : fetches (t1 ++ t2) = fetches t1 + fetches t2.
Proof. unfold fetches. rewrite filter_app, length_app. reflexivity. Qed.

Lemma step_balance pg ev pg' t :
  guarded pg -> step engine pg ev = Some (pg', t) ->
  fetches t + awaiting pg = awaiting pg' + (if is_EvSettle ev then 1 else 0).
Proof.
  intros Hg Hstep. destruct ev as [document | r | | |]; cbn in Hstep.
  - unfold on_home in Hstep. destruct Hg as [[Hb [c Hc]] | [Hb Hc]].
    + rewrite share_busy in Hstep by assumption. injection Hstep as <- <-.
      change (fetches _) with 0. unfold awaiting. cbn [chains requests flat_map].
      rewrite app_nil_r. cbn [is_EvSettle]. lia.
    + rewrite share_idle in Hstep by assumption. injection Hstep as <- <-.
      change (fetches _) with 1. unfold awaiting. cbn [chains]. rewrite Hc. reflexivity.
  - destruct Hg as [[Hb [c Hc]] | [Hb Hc]]; rewrite Hc in Hstep; [|discriminate].
    destruct c as [req|]; [|discriminate].
    rewrite settle_ending in Hstep. unfold awaiting. rewrite Hc.
    destruct (ending engine r); injection Hstep as <- <-; reflexivity.
  - injection Hstep as <- <-. change (fetches _) with 0. unfold awaiting.
    cbn [chains requests flat_map app]. rewrite app_nil_r. cbn [is_EvSettle]. lia.
  - injection Hstep as <- <-. change (fetches _) with 0. unfold awaiting.
    cbn [chains requests flat_map app]. rewrite app_nil_r. cbn [is_EvSettle]. lia.
  - injection Hstep as <- <-. change (fetches _) with 0. unfold awaiting.
    cbn [chains requests flat_map app]. rewrite app_nil_r. cbn [is_EvSettle]. lia.
Qed.

Lemma settles_cons ev evs :
  settles (ev :: evs) = (if is_EvSettle ev then 1 else 0) + settles evs.
Proof. destruct ev; reflexivity. Qed.

Lemma run_balance evs : forall pg pg' t,
  guarded pg -> run engine pg evs = Some (pg', t) ->
  fetches t + awaiting pg = awaiting pg' + settles evs.
Proof.
  induction evs as [|ev evs IH]; intros pg pg' t Hg Hr; cbn in Hr.
  - injection Hr as <- <-. unfold settles. cbn. lia.
  - destruct (step engine pg ev) as [[pg1 t1]|] eqn:Hs; [|discriminate].
    destruct (run engine pg1 evs) as [[pg2 t2]|] eqn:Hr'; [|discriminate].
    injection Hr as <- <-. rewrite fetches_app.
    pose proof (step_balance _ _ _ _ Hg Hs) as H1.
    pose proof (IH _ _ _ (guarded_step _ _ _ _ Hg Hs) Hr') as H2.
    rewrite settles_cons. lia.
Qed.

(** X10.  Over any run from the start, the requests sent are the
    responses handled plus the saves still waiting, of which there is at
    most one: the page never sends more than one request ahead of the
    responses it has handled. *)
Theorem requests_never_outrun_settled_saves
    (evs : list Event) (pg : Page) (t : list Action) :
  run engine start evs = Some (pg, t) ->
  fetches t = settles evs + awaiting pg /\ awaiting pg <= 1 /\
  fetches t <= S (settles evs).
Proof.
  intros Hr. pose proof (run_balance evs start pg t guarded_start Hr) as Hb.
  assert (Ha : awaiting pg <= 1).
  { destruct (guarded_run evs start pg t guarded_start Hr) as [[_ [c Hc]] | [_ Hc]];
      unfold awaiting; rewrite Hc; [destruct c|]; vm_compute; lia. }
  change (awaiting start) with 0 in Hb. lia.
Qed.

Lemma stuck_step pg ev pg' t :
  stuck pg -> step engine pg ev = Some (pg', t) ->
  stuck pg' /\ fetches t = 0 /\ is_EvSettle ev = false.
Proof.
  intros (Hc & Hb & Hv) Hstep. destruct ev as [document | r | | |]; cbn in Hstep.
  - unfold on_home in Hstep. rewrite share_busy in Hstep by assumption.
    injection Hstep as <- <-. unfold stuck. cbn. rewrite Hc. auto.
  - rewrite Hc in Hstep. discriminate.
  - injection Hstep as <- <-. unfold stuck. cbn [home chains]. rewrite Hc. auto.
  - injection Hstep as <- <-. unfold stuck. cbn [home chains]. rewrite Hc. auto.
  - injection Hstep as <- <-. unfold stuck. cbn [home chains]. rewrite Hc. auto.
Qed.

Lemma stuck_run evs : forall pg pg' t,
  stuck pg -> run engine pg evs = Some (pg', t) ->
  stuck pg' /\ fetches t = 0 /\ settles evs = 0.
Proof.
  induction evs as [|ev evs IH]; intros pg pg' t Hg Hr; cbn in Hr.
  - injection Hr as <- <-. auto.
  - destruct (step engine pg ev) as [[pg1 t1]|] eqn:Hs; [|discriminate].
    destruct (run engine pg1 evs) as [[pg2 t2]|] eqn:Hr'; [|discriminate].
    injection Hr as <- <-. destruct (stuck_step _ _ _ _ Hg Hs) as (H1 & F1 & E1).
    destruct (IH _ _ _ H1 Hr') as (H2 & F2 & E2).
    rewrite fetches_app, settles_cons, E1. split; [exact H2|]. lia.
Qed.

(** X11.  Once the body of a non-ok response could not be read, the
    chain of that save never settles: whatever happens next, the page sends
    no further request and handles no response, and the guard and the busy
    indicator stay set. *)
Theorem unreadable_error_body_blocks_saving_for_good
    (pg : Page) (evs : list Event) (pg' : Page) (t : list Action) :
  reachable engine pg -> chains pg = [Stuck] ->
  run engine pg evs = Some (pg', t) ->
  fetches t = 0 /\ settles evs = 0 /\ chains pg' = [Stuck] /\
  hasSaveRequest (home pg') = true /\ isSharingView (home pg') = true /\
  (forall pg0 req e, chains pg0 = [Awaiting req] ->
     step engine pg0 (EvSettle (Response false (BodyFailure e)))
     = Some ({| home := home pg0; chains := [Stuck] |}, [])).
Proof.
  intros Hr Hc Hrun.
  assert (Hs : stuck pg).
  { split; [exact Hc|].
    assert (Hb : hasSaveRequest (home pg) = true).
    { destruct (guarded_reachable pg Hr) as [[Hb _] | [_ Hn]]; [exact Hb|].
      rewrite Hn in Hc. discriminate. }
    split; [exact Hb|]. rewrite <- Hb.
    destruct Hr as (evs0 & t0 & Hrun0). eapply synced_run; [|exact Hrun0]. reflexivity. }
  destruct (stuck_run evs pg pg' t Hs Hrun) as ((Hc' & Hb' & Hv') & Hf & He).
  repeat split; try assumption.
  intros pg0 req e Hc0. cbn. rewrite Hc0. reflexivity.
Qed.

(* ---------------- what [share] sends ---------------- *)

Lemma well_formed_edit_of_node document p :
  well_formed_document document -> well_formed_edit (edit_of_node document p).
Proof.
  intros Hd. unfold edit_of_node, well_formed_edit. cbn [id innerText]. split.
  - destruct (element_at document (parentNode p)) as [e|] eqn:He; cbn.
    + apply (Hd _ _ He).
    + constructor.
  - destruct (element_at document p) as [e|] eqn:He; cbn.
    + apply (Hd _ _ He).
    + constructor.
Qed.

Lemma well_formed_persistContents document :
  well_formed_document document -> Forall well_formed_edit (persistContents document).
Proof.
  intros Hd. unfold persistContents. apply Forall_forall. intros e He.
  apply list_elem_of_fmap in He as (p & -> & _). apply well_formed_edit_of_node, Hd.
Qed.

(** X12.  With the guard clear, [share] sets the guard and then sends
    one POST to [/api/save] with the JSON content type, and the body reads
    back, with [JSON.parse], as the edits captured from the document; the
    snapshot id, the error and the edit mode are left as they were. *)
Theorem share_sends_the_captured_edits (document : Element) (st : HomeState) :
  hasSaveRequest st = false -> well_formed_document document ->
  exists req st',
    share document st = (tt, st', [SetSharing true; Fetch req]) /\
    url req = lit "/api/save" /\ method req = lit "POST" /\
    headers req = [(lit "content-type", lit "application/json")] /\
    JSON_parse (body req) ≫= edits_of_value = Some (persistContents document) /\
    currentSnapshotId st' = currentSnapshotId st /\ currentError st' = currentError st /\
    isEdit st' = isEdit st.
Proof.
  intros Hb Hd. exists (save_request document), (with_sharing true st).
  split; [apply share_idle, Hb|]. repeat split.
  cbn [body save_request].
  rewrite JSON_parse_stringify by (apply well_formed_persistContents, Hd).
  cbn [mbind option_bind]. apply edits_of_value_of_edits.
Qed.

(** X13.  A document with no editable child of an element carrying
    an id is saved all the same: the captured list is empty, the body is
    the JSON text of the empty array, and the request is still sent. *)
Theorem share_without_regions_sends_an_empty_list (document : Element) (st : HomeState) :
  (forall p, ~ is_region document p) ->
  persistContents document = [] /\
  body (save_request document) = [LBRACK; RBRACK] /\
  (hasSaveRequest st = false ->
   (share document st).2 = [SetSharing true; Fetch (save_request document)]).
Proof.
  intros Hn.
  assert (Hq : querySelectorAll document = []).
  { destruct (querySelectorAll document) as [|p ps] eqn:Hq; [reflexivity|].
    exfalso. apply (Hn p), elem_of_querySelectorAll. rewrite Hq. left. }
  assert (Hp : persistContents document = []).
  { unfold persistContents. rewrite Hq. reflexivity. }
  split; [exact Hp|]. split.
  - cbn [body save_request]. rewrite Hp. reflexivity.
  - intros Hb. rewrite share_idle by assumption. reflexivity.
Qed.

(* ===================================================================== *)
(** ** The run of the scraping script *)
(* ===================================================================== *)


(** The run laid out by what the surroundings answer. *)
Lemma scrapeData_runs (w : World) :
  (exists e, page w = Rejects e /\
     scrapeData engine w = [FetchPage; Log (LError e)]) \/
  (exists html, page w = Resolves html /\ last (script_elements w html) = None /\
     scrapeData engine w =
       [FetchPage; Log (LText html); Log (LElement None);
        Log (LError (TypeError engine VUndefined))]) \/
  (exists html outerHTML, page w = Resolves html /\
     last (script_elements w html) = Some outerHTML /\
     let seen := [FetchPage; Log (LText html); Log (LElement (Some outerHTML));
                  Log (LText outerHTML); Log (LNumber (startIndex outerHTML));
                  Log (LNumber (endIndex outerHTML))] in
     (found outerHTML = false /\
      scrapeData engine w = seen ++ [Log (LText (lit "Not found"))]) \/
     (found outerHTML = true /\
      let asked := seen ++ [Log (LText (result outerHTML)); GetContents] in
      ((exists e, get_contents w = Rejects e /\
          scrapeData engine w = asked ++ [Log (LError e)]) \/
       (exists response e, get_contents w = Resolves response /\
          data_sha engine response = Throw e /\
          scrapeData engine w = asked ++ [Log (LError e)]) \/
       (exists response sha, get_contents w = Resolves response /\
          data_sha engine response = Return sha /\
          let content := encodedStringSecond (result outerHTML) in
          let sent := asked ++ [Log (LValue sha); PutContents content sha] in
          ((exists e, put_contents w content sha = Rejects e /\
              scrapeData engine w = sent ++ [Log (LError e)]) \/
           (exists respUpdate, put_contents w content sha = Resolves respUpdate /\
              scrapeData engine w = sent ++ [Log (LValue respUpdate)])))))).
Proof.
  unfold scrapeData. destruct (page w) as [html|e]; [|left; eauto].
  right. destruct (last (script_elements w html)) as [outerHTML|] eqn:Hl; [|left; eauto].
  right. exists html, outerHTML. split; [reflexivity|]. split; [exact Hl|]. cbn zeta.
  destruct (found outerHTML); [|left; auto]. right. split; [reflexivity|].
  destruct (get_contents w) as [response|e]; [|left; eauto].
  right. destruct (data_sha engine response) as [sha|e] eqn:Hd; [|left; eauto].
  right. exists response, sha. split; [reflexivity|]. split; [exact Hd|]. cbn zeta.
  destruct (put_contents w _ sha) as [respUpdate|e] eqn:Hp; [right | left]; eauto.
Qed.

(** X18.  The repository is read only once the page has loaded, holds a
    script element and passed the guard, and written only once that read
    gave a [data] object; it is written at most once, with the [sha] just
    read and the twice-encoded text. *)
Theorem repository_is_written_only_after_a_full_run (w : World) :
  (GetContents ∈ scrapeData engine w <->
   exists html outerHTML,
     page w = Resolves html /\ last (script_elements w html) = Some outerHTML /\
     found outerHTML = true) /\
  (forall content sha,
     (content, sha) ∈ puts (scrapeData engine w) <->
     exists html outerHTML response,
       page w = Resolves html /\ last (script_elements w html) = Some outerHTML /\
       found outerHTML = true /\ get_contents w = Resolves response /\
       data_sha engine response = Return sha /\
       content = encodedStringSecond (result outerHTML)) /\
  length (puts (scrapeData engine w)) <= 1.
Proof.
  destruct (scrapeData_runs w) as
    [(e & Hp & ->) | [(html & Hp & Hl & ->) |
      (html & outerHTML & Hp & Hl & [[Hf ->] | [Hf H]])]].
  - split; [|split; [|cbn; lia]].
    + split; [intros H; repeat (apply elem_of_cons in H as [H|H]; [discriminate|]);
              inversion H | intros (? & ? & ? & _); congruence].
    + intros content sha. split; [intros H; inversion H|].
      intros (? & ? & ? & ? & _). congruence.
  - split; [|split; [|cbn; lia]].
    + split; [intros H; repeat (apply elem_of_cons in H as [H|H]; [discriminate|]);
              inversion H | intros (? & ? & ? & ? & _); congruence].
    + intros content sha. split; [intros H; inversion H|].
      intros (? & ? & ? & ? & ? & _). congruence.
  - split; [|split; [|cbn; lia]].
    + split; [intros H; repeat (apply elem_of_cons in H as [H|H]; [discriminate|]);
              inversion H | intros (? & ? & ? & ? & ?); congruence].
    + intros content sha. split; [intros H; inversion H|].
      intros (? & ? & ? & ? & ? & ? & _). congruence.
  - cbn zeta in H. split.
    { split; [intros _; eauto|]. intros _.
      destruct H as [(e & _ & ->) | [(r & e & _ & _ & ->) |
        (r & sha & _ & _ & [(e & _ & ->) | (u & _ & ->)])]];
        cbn [app]; do 7 apply list_elem_of_further; apply list_elem_of_here. }
    destruct H as [(e & Hg & ->) | [(r & e & Hg & Hd & ->) |
        (r & sha & Hg & Hd & [(e & Hu & ->) | (u & Hu & ->)])]].
    + split; [|cbn; lia]. intros content sha. split; [intros H; inversion H|].
      intros (? & ? & ? & ? & ? & ? & ? & _). congruence.
    + split; [|cbn; lia]. intros content sha. split; [intros H; inversion H|].
      intros (? & ? & ? & ? & ? & ? & ? & ? & _). congruence.
    + split; [|cbn; lia]. intros content sha'. cbn [app puts omap list_omap].
      rewrite list_elem_of_singleton. split.
      * intros [= -> ->]. exists html, outerHTML, r. auto 10.
      * intros (h & o & r' & Hp' & Hl' & _ & Hg' & Hd' & ->).
        assert (h = html) as -> by congruence. assert (o = outerHTML) as -> by congruence.
        assert (r' = r) as -> by congruence. congruence.
    + split; [|cbn; lia]. intros content sha'. cbn [app puts omap list_omap].
      rewrite list_elem_of_singleton. split.
      * intros [= -> ->]. exists html, outerHTML, r. auto 10.
      * intros (h & o & r' & Hp' & Hl' & _ & Hg' & Hd' & ->).
        assert (h = html) as -> by congruence. assert (o = outerHTML) as -> by congruence.
        assert (r' = r) as -> by congruence. congruence.
Qed.


End Properties.

(* ===================================================================== *)
(** ** The scraping script: the text between the markers *)
(* ===================================================================== *)

Lemma indexOf_from_range s pat : forall i,
  indexOf_from i s pat = (-1)%Z \/
  (i <= indexOf_from i s pat <= i + Z.of_nat (length s))%Z.
Proof.
  induction s as [|c r IH]; intros i; cbn [indexOf_from].
  - destruct (strip_prefix pat []); [right; cbn; lia | left; reflexivity].
  - destruct (strip_prefix pat (c :: r)); [right; cbn [length]; lia|].
    destruct (IH (i + 1)%Z) as [H | H]; [left; exact H | right; cbn [length]; lia].
Qed.

Lemma strip_prefix_Some pat : forall s rest,
  strip_prefix pat s = Some rest -> s = pat ++ rest.
Proof.
  induction pat as [|a pat IH]; intros s rest; cbn [strip_prefix].
  - intros [= ->]. reflexivity.
  - destruct s as [|b s]; [discriminate|].
    destruct (N.eqb_spec a b) as [->|]; [|discriminate].
    intros H. apply IH in H. subst s. reflexivity.
Qed.

(** Where [indexOf] points, the pattern starts. *)
Lemma indexOf_from_sound s pat : forall i (n : nat),
  (0 <= i)%Z ->
  indexOf_from i s pat = (i + Z.of_nat n)%Z ->
  take (length pat) (drop n s) = pat /\ n + length pat <= length s.
Proof.
  induction s as [|c r IH]; intros i n Hi; cbn [indexOf_from].
  - destruct (strip_prefix pat []) as [rest|] eqn:Hp; [|lia].
    intros Hn. assert (n = 0) as -> by lia. apply strip_prefix_Some in Hp.
    destruct pat; [split; reflexivity | discriminate].
  - destruct (strip_prefix pat (c :: r)) as [rest|] eqn:Hp.
    + intros Hn. assert (n = 0) as -> by lia. apply strip_prefix_Some in Hp.
      rewrite Hp, drop_0, take_app_length, length_app. split; [reflexivity | lia].
    + intros Hn. destruct n as [|n].
      * destruct (indexOf_from_range r pat (i + 1)) as [H | H]; lia.
      * destruct (IH (i + 1)%Z n) as [H1 H2]; [lia | lia |].
        cbn [skipn length]. split; [exact H1 | lia].
Qed.

Lemma indexOf_sound s pat (n : nat) :
  indexOf s pat = Z.of_nat n ->
  take (length pat) (drop n s) = pat /\ n + length pat <= length s.
Proof. unfold indexOf. intros H. apply (indexOf_from_sound s pat 0 n); lia. Qed.

Lemma indexOf_range s pat :
  indexOf s pat = (-1)%Z \/ (0 <= indexOf s pat <= Z.of_nat (length s))%Z.
Proof. unfold indexOf. destruct (indexOf_from_range s pat 0); [left | right]; lia. Qed.

(** X14.  The guard of the script does not see a missing marker: the
    branch that logs [Not found] is taken exactly when the first [poster:]
    starts at position 27; a script without [poster:], or without
    [source: ], passes it. *)
Theorem not_found_only_when_poster_starts_at_27 (outerHTML : jsstring) :
  (found outerHTML = false <-> indexOf outerHTML (lit "poster:") = 27%Z) /\
  (indexOf outerHTML (lit "poster:") = (-1)%Z -> found outerHTML = true) /\
  (indexOf outerHTML (lit "source: ") = (-1)%Z ->
   indexOf outerHTML (lit "poster:") <> 27%Z -> found outerHTML = true).
Proof.
  unfold found, startIndex, endIndex.
  pose proof (indexOf_range outerHTML (lit "source: ")) as Hs.
  destruct (Z.eqb_spec (indexOf outerHTML (lit "source: ") + 9) (-1)) as [E1|E1]; [lia|].
  destruct (Z.eqb_spec (indexOf outerHTML (lit "poster:") - 28) (-1)) as [E2|E2];
    cbn [negb andb].
  - split; [split; [intros _; lia | reflexivity]|]. split; intros; exfalso; lia.
  - split; [split; [discriminate | intros; lia]|]. split; reflexivity.
Qed.

Lemma clamp_of_nat len (n : nat) : n <= len -> clamp len (Z.of_nat n) = n.
Proof. unfold clamp. lia. Qed.

Lemma clamp_negative len z : (z <= 0)%Z -> clamp len z = 0.
Proof. unfold clamp. lia. Qed.

(** X15.  With both markers in place and far enough apart, the text
    extracted is the stretch of the script from nine code units after the
    start of [source: ] to twenty-eight before the start of [poster:]. *)
Theorem result_lies_between_the_markers (outerHTML : jsstring) (i j : nat) :
  indexOf outerHTML (lit "source: ") = Z.of_nat i ->
  indexOf outerHTML (lit "poster:") = Z.of_nat j ->
  i + 9 + 28 <= j ->
  found outerHTML = true /\
  take 8 (drop i outerHTML) = lit "source: " /\
  take 7 (drop j outerHTML) = lit "poster:" /\
  result outerHTML = take (j - 28 - (i + 9)) (drop (i + 9) outerHTML) /\
  length (result outerHTML) = j - 28 - (i + 9).
Proof.
  intros Hi Hj Hij.
  destruct (indexOf_sound _ _ _ Hi) as [Hs1 Hs2].
  destruct (indexOf_sound _ _ _ Hj) as [Hp1 Hp2].
  change (length (lit "source: ")) with 8 in *. change (length (lit "poster:")) with 7 in *.
  assert (Hr : result outerHTML = take (j - 28 - (i + 9)) (drop (i + 9) outerHTML)).
  { unfold result, substring, startIndex, endIndex. rewrite Hi, Hj. cbn zeta.
    replace (Z.of_nat i + 9)%Z with (Z.of_nat (i + 9)) by lia.
    replace (Z.of_nat j - 28)%Z with (Z.of_nat (j - 28)) by lia.
    rewrite !clamp_of_nat by lia.
    replace (Nat.min (i + 9) (j - 28)) with (i + 9) by lia.
    replace (Nat.max (i + 9) (j - 28)) with (j - 28) by lia. reflexivity. }
  split.
  { unfold found, startIndex, endIndex. rewrite Hi, Hj.
    destruct (Z.eqb_spec (Z.of_nat i + 9) (-1)); [lia|].
    destruct (Z.eqb_spec (Z.of_nat j - 28) (-1)); [lia|]. reflexivity. }
  split; [exact Hs1|]. split; [exact Hp1|]. split; [exact Hr|].
  rewrite Hr, length_take, length_drop. lia.
Qed.

(** X16.  With neither marker in the script the guard passes all the
    same, and the text taken is the first eight code units of the script
    element. *)
Theorem missing_markers_yield_the_first_eight_units (outerHTML : jsstring) :
  indexOf outerHTML (lit "source: ") = (-1)%Z ->
  indexOf outerHTML (lit "poster:") = (-1)%Z ->
  found outerHTML = true /\ result outerHTML = take 8 outerHTML.
Proof.
  intros Hi Hj. split.
  - unfold found, startIndex, endIndex. rewrite Hi, Hj. reflexivity.
  - unfold result, substring, startIndex, endIndex. rewrite Hi, Hj. cbn zeta.
    rewrite (clamp_negative _ (-1 - 28)) by lia.
    rewrite Nat.min_0_r, Nat.max_0_r, Nat.sub_0_r, drop_0.
    unfold clamp. destruct (Nat.le_gt_cases 8 (length outerHTML)) as [Hl|Hl].
    + replace (Z.to_nat _) with 8 by lia. reflexivity.
    + replace (Z.to_nat _) with (length outerHTML) by lia.
      rewrite (take_ge outerHTML 8) by lia. apply take_ge. lia.
Qed.

(* ===================================================================== *)
(** ** The scraping script: the uploaded content *)
(* ===================================================================== *)

Local Open Scope N_scope.


Lemma base64_value_char n : n < 64 -> base64_value (base64_char n) = Some n.
Proof.
  intros Hn. unfold base64_value, base64_char.
  nbool; cbn [andb]; try (f_equal; lia); lia.
Qed.

Lemma base64_char_not_pad n : n < 64 -> (base64_char n =? PAD) = false.
Proof. intros Hn. unfold base64_char, PAD. nbool; try reflexivity; lia. Qed.

Lemma base64_char_ascii n : is_ascii (base64_char n).
Proof. unfold is_ascii, base64_char. nbool; lia. Qed.

Lemma three_step_ind (P : list N -> Prop) :
  P [] -> (forall a, P [a]) -> (forall a b, P [a; b]) ->
  (forall a b c rest, P rest -> P (a :: b :: c :: rest)) ->
  forall l, P l.
Proof.
  intros H0 H1 H2 H3. fix IH 1.
  intros [|a [|b [|c rest]]]; [exact H0 | apply H1 | apply H2 | apply H3, IH].
Qed.

Ltac read_back :=
  repeat first
    [ rewrite base64_value_char by lia
    | rewrite base64_char_not_pad by lia
    | progress change (PAD =? PAD) with true
    | progress cbn [mbind option_bind app]
    | progress cbv beta iota ].

Lemma base64_decode_base64 bytes :
  Forall is_byte bytes -> base64_decode (base64 bytes) = Some bytes.
Proof.
  unfold is_byte. induction bytes as [| a | a b | a b c rest IH] using three_step_ind;
    intros Hb.
  - reflexivity.
  - apply Forall_cons in Hb as [Ha _]. cbn [base64 base64_decode]. read_back.
    f_equal. f_equal. lia.
  - apply Forall_cons in Hb as [Ha Hb]. apply Forall_cons in Hb as [Hb _].
    cbn [base64 base64_decode]. read_back.
    f_equal. f_equal; [lia|]. f_equal. lia.
  - apply Forall_cons in Hb as [Ha Hb]. apply Forall_cons in Hb as [Hb Hc].
    apply Forall_cons in Hc as [Hc Hr].
    cbn [base64 app base64_decode]. read_back. rewrite IH by assumption. read_back.
    f_equal. f_equal; [lia|]. f_equal; [lia|]. f_equal. lia.
Qed.

Lemma length_base64 bytes :
  length (base64 bytes) = (4 * ((length bytes + 2) / 3))%nat.
Proof.
  induction bytes as [| a | a b | a b c rest IH] using three_step_ind;
    try reflexivity.
  cbn [base64 length app]. rewrite IH.
  replace (S (S (S (length rest))) + 2)%nat with (length rest + 2 + 1 * 3)%nat by lia.
  rewrite Nat.div_add by lia. lia.
Qed.

Lemma base64_is_ascii bytes : Forall is_ascii (base64 bytes).
Proof.
  induction bytes as [| a | a b | a b c rest IH] using three_step_ind;
    cbn [base64 app]; repeat constructor;
    try apply base64_char_ascii; try (unfold is_ascii, PAD; lia); assumption.
Qed.

Lemma utf8_of_ascii s : Forall is_ascii s -> utf8 s = s.
Proof.
  unfold is_ascii. induction 1 as [|c r Hc Hr IH]; [reflexivity|].
  cbn [utf8]. unfold is_lead_surrogate, is_trail_surrogate, utf8_code_point.
  nbool; cbn [andb]; try lia. cbn [app]. rewrite IH. reflexivity.
Qed.

Lemma utf8_code_point_bytes cp : cp < 0x110000 -> Forall is_byte (utf8_code_point cp).
Proof.
  intros Hcp. unfold utf8_code_point, is_byte.
  nbool; repeat constructor; lia.
Qed.

Lemma utf8_is_bytes_bounded (n : nat) : forall s,
  (length s <= n)%nat -> well_formed s -> Forall is_byte (utf8 s).
Proof.
  induction n as [|n IH]; intros s Hn Hs.
  { destruct s; [constructor | cbn in Hn; lia]. }
  destruct s as [|c r]; [constructor|]. apply Forall_cons in Hs as [Hc Hr].
  unfold code_unit in Hc. cbn [length] in Hn. cbn [utf8].
  assert (Hrep : Forall is_byte REPLACEMENT) by (repeat constructor).
  destruct (is_lead_surrogate c) eqn:Hl.
  - destruct r as [|d r']; [exact Hrep|]. cbn [length] in Hn.
    destruct (is_trail_surrogate d) eqn:Ht.
    + apply Forall_cons in Hr as [Hd Hr']. apply Forall_app. split.
      * apply utf8_code_point_bytes. unfold is_lead_surrogate, is_trail_surrogate in *.
        revert Hl Ht. nbool; cbn [andb]; try discriminate. intros _ _. lia.
      * apply IH; [lia | exact Hr'].
    + apply Forall_app. split; [exact Hrep|]. apply IH; [cbn [length]; lia | exact Hr].
  - destruct (is_trail_surrogate c).
    + apply Forall_app. split; [exact Hrep|]. apply IH; [lia | exact Hr].
    + apply Forall_app. split; [apply utf8_code_point_bytes; lia|]. apply IH; [lia | exact Hr].
Qed.

Lemma utf8_is_bytes s : well_formed s -> Forall is_byte (utf8 s).
Proof. apply (utf8_is_bytes_bounded (length s)). lia. Qed.

(** X17.  What the script uploads is plain ASCII, of a length fixed by
    the length of the text in UTF-8, and two rounds of base64 decoding give
    the UTF-8 bytes of the text back. *)
Theorem uploaded_content_decodes_to_the_text (text : jsstring) :
  well_formed text ->
  base64_decode (encodedStringSecond text) ≫= base64_decode = Some (utf8 text) /\
  Forall is_ascii (encodedStringSecond text) /\
  length (encodedStringSecond text)
  = (4 * ((4 * ((length (utf8 text) + 2) / 3) + 2) / 3))%nat.
Proof.
  intros Hw. unfold encodedStringSecond, encodedString.
  rewrite (utf8_of_ascii (base64 (utf8 text))) by apply base64_is_ascii.
  split; [|split].
  - rewrite base64_decode_base64.
    + cbn [mbind option_bind]. apply base64_decode_base64, utf8_is_bytes, Hw.
    + eapply Forall_impl; [apply base64_is_ascii|]. unfold is_ascii, is_byte. intros; lia.
  - apply base64_is_ascii.
  - rewrite !length_base64. reflexivity.
Qed.

Local Close Scope N_scope.

(* ===================================================================== *)
(** ** The definitions on examples *)
(* ===================================================================== *)

Example quote_body_escapes :
  quote_body [10; 0xD83D; 0xDCE1; 0xD83D; QUOTE]%N
  = (lit "\n" ++ [0xD83D; 0xDCE1] ++ lit "\ud83d" ++ [BACKSLASH; QUOTE])%N.
Proof. reflexivity. Qed.

Example parse_with_whitespace :
  JSON_parse (lit " [ 1.5e3 , true , null , { } ] ")
  = Some (VArray [VNumber (lit "1.5e3"); VBool true; VNull; VObject []]).
Proof. vm_compute. reflexivity. Qed.

Example parse_trailing_comma : JSON_parse (lit "[1,]") = None.
Proof. vm_compute. reflexivity. Qed.

Example parse_leading_zero : JSON_parse (lit "01") = None.
Proof. vm_compute. reflexivity. Qed.

Example persistContents_example : persistContents example_document = example_edits.
Proof. vm_compute. reflexivity. Qed.

Example parse_stringify_example :
  JSON_parse (JSON_stringify example_edits) = Some (value_of_edits example_edits).
Proof. vm_compute. reflexivity. Qed.

Example getStaticProps_plain :
  getStaticProps sample_engine missing_object false {| pd_snapshotId := [] |} = plain_props.
Proof. reflexivity. Qed.

Example getStaticProps_refused :
  message (getStaticProps sample_engine refused_object true {| pd_snapshotId := lit "x" |})
  = Some NOT_EXIST.
Proof. reflexivity. Qed.

Example getStaticProps_missing :
  message (getStaticProps sample_engine missing_object true {| pd_snapshotId := lit "x" |})
  = Some S3_ERROR.
Proof. reflexivity. Qed.

(* ===================================================================== *)
(** ** The theorems at concrete inputs *)
(* ===================================================================== *)




Lemma share_ignored_while_in_flight_witness :
  let pg := {| home := with_sharing true initial;
               chains := [Awaiting (save_request example_document)] |} in
  reachable sample_engine pg /\ chains pg <> [] /\
  run sample_engine pg (map EvShare [example_document; example_document]) = Some (pg, []).
Proof.
  intros pg.
  assert (Hr : reachable sample_engine pg).
  { exists [EvShare example_document],
      [SetSharing true; Fetch (save_request example_document)]. reflexivity. }
  assert (Hne : chains pg <> []) by discriminate.
  split; [exact Hr|]. split; [exact Hne|].
  apply (share_ignored_while_in_flight sample_engine pg
           [example_document; example_document] Hr Hne).
Defined.


Lemma save_then_load_round_trip_witness :
  Forall well_formed_edit example_edits /\
  exists bucket',
    api_save (lit "abc123") (JSON_stringify example_edits) ∅ = Some (bucket', lit "abc123") /\
    contents (getStaticProps sample_engine (s3_of bucket' refused) true
                {| pd_snapshotId := lit "abc123" |})
    = Some (value_of_edits example_edits).
Proof.
  assert (H : Forall well_formed_edit example_edits).
  { repeat constructor. }
  split; [exact H|].
  destruct (save_then_load_round_trip sample_engine example_edits (lit "abc123") ∅ refused H)
    as (bucket' & Hsave & _ & Hcontents & _).
  exists bucket'. split; [exact Hsave | exact Hcontents].
Defined.

Lemma canonical_render_has_empty_overlay_witness :
  isPreview plain_props = false /\ edits_of plain_props = VArray [].
Proof.
  split; [reflexivity|].
  apply (canonical_render_has_empty_overlay sample_engine plain_props initial eq_refl).
Defined.


Lemma load_reads_one_object_witness :
  getStaticProps sample_engine missing_object true {| pd_snapshotId := lit "abc123" |}
  = getStaticProps sample_engine (s3_of ∅ missing) true {| pd_snapshotId := lit "abc123" |}.
Proof.
  apply (load_reads_one_object sample_engine missing_object (s3_of ∅ missing) true
           {| pd_snapshotId := lit "abc123" |}).
  intros _. reflexivity.
Defined.

Lemma loaded_preview_renders_contents_witness :
  s3_of example_bucket missing (lit "abc123" ++ lit ".json")
  = S3Object (JSON_stringify example_edits) /\
  JSON_parse (JSON_stringify example_edits) = Some (value_of_edits example_edits) /\
  getStaticProps sample_engine (s3_of example_bucket missing) true
    {| pd_snapshotId := lit "abc123" |}
  = {| isPreview := true; hasError := None; message := None;
       snapshotId := Some (lit "abc123"); contents := Some (value_of_edits example_edits) |}.
Proof.
  assert (H1 : s3_of example_bucket missing (lit "abc123" ++ lit ".json")
               = S3Object (JSON_stringify example_edits)) by (vm_compute; reflexivity).
  assert (H2 : JSON_parse (JSON_stringify example_edits)
               = Some (value_of_edits example_edits)) by (vm_compute; reflexivity).
  split; [exact H1|]. split; [exact H2|].
  exact (proj1 (loaded_preview_renders_contents sample_engine (s3_of example_bucket missing)
                  {| pd_snapshotId := lit "abc123" |} (JSON_stringify example_edits)
                  (value_of_edits example_edits) initial H1 H2)).
Defined.

Lemma busy_indicator_tracks_unsettled_save_witness :
  let pg := {| home := with_sharing true initial;
               chains := [Awaiting (save_request example_document)] |} in
  reachable sample_engine pg /\ isSharingView (home pg) = hasSaveRequest (home pg).
Proof.
  intros pg.
  assert (Hr : reachable sample_engine pg).
  { exists [EvShare example_document],
      [SetSharing true; Fetch (save_request example_document)]. reflexivity. }
  split; [exact Hr|].
  exact (proj1 (busy_indicator_tracks_unsettled_save sample_engine pg plain_props Hr)).
Defined.

Lemma requests_never_outrun_settled_saves_witness :
  let evs := [EvShare example_document; EvShare example_document;
              EvSettle (NetworkFailure refused); EvShare example_document] in
  exists pg t, run sample_engine start evs = Some (pg, t) /\ fetches t <= S (settles evs).
Proof.
  intros evs.
  destruct (run sample_engine start evs) as [[pg t]|] eqn:Hrun; [|vm_compute in Hrun; discriminate].
  exists pg, t. split; [reflexivity|].
  exact (proj2 (proj2 (requests_never_outrun_settled_saves sample_engine evs pg t Hrun))).
Defined.

Lemma stuck_page_reachable : reachable sample_engine stuck_page.
Proof.
  exists [EvShare example_document; EvSettle unreadable],
    [SetSharing true; Fetch (save_request example_document)]. reflexivity.
Qed.

Lemma unreadable_error_body_blocks_saving_for_good_witness :
  reachable sample_engine stuck_page /\ chains stuck_page = [Stuck] /\
  run sample_engine stuck_page [EvShare example_document; EvClearError] 
  = Some ({| home := with_sharing true initial; chains := [Stuck] |}, [SetError None]) /\
  fetches [SetError None] = 0.
Proof.
  assert (Hrun : run sample_engine stuck_page [EvShare example_document; EvClearError]
                 = Some ({| home := with_sharing true initial; chains := [Stuck] |},
                         [SetError None])) by reflexivity.
  split; [exact stuck_page_reachable|]. split; [reflexivity|]. split; [exact Hrun|].
  exact (proj1 (unreadable_error_body_blocks_saving_for_good sample_engine stuck_page
                  [EvShare example_document; EvClearError] _ _
                  stuck_page_reachable eq_refl Hrun)).
Defined.

Lemma well_formed_lit (s : string) : well_formed (lit s).
Proof.
  unfold well_formed, lit. apply Forall_fmap, Forall_forall.
  intros a _. unfold code_unit. cbn. pose proof (N_ascii_bounded a). lia.
Qed.

Lemma example_document_well_formed : well_formed_document example_document.
Proof.
  pose proof well_formed_lit as Hw.
  intros p e He.
  assert (Hcases : exists t i, (el_id e = [] \/ el_id e = lit i) /\ el_innerText e = lit t).
  { destruct p as [|[|[|?]] [|[|?] [|? ?]]]; cbn in He; try discriminate;
      injection He as <-; vm_compute; eauto.
    - exists "Hello static"%string, EmptyString. auto.
    - exists "Hello"%string, "title"%string. auto.
    - exists "Hello"%string, EmptyString. auto.
    - exists "static"%string, EmptyString. auto. }
  destruct Hcases as (t & i & [-> | ->] & ->); split; first [apply Hw | constructor].
Qed.

Lemma share_sends_the_captured_edits_witness :
  hasSaveRequest initial = false /\ well_formed_document example_document /\
  exists req st',
    share example_document initial = (tt, st', [SetSharing true; Fetch req]) /\
    JSON_parse (body req) ≫= edits_of_value = Some (persistContents example_document).
Proof.
  split; [reflexivity|]. split; [exact example_document_well_formed|].
  destruct (share_sends_the_captured_edits example_document initial eq_refl
              example_document_well_formed) as (req & st' & Hs & _ & _ & _ & Hb & _).
  exists req, st'. split; [exact Hs | exact Hb].
Defined.

Lemma static_document_has_no_region : forall p, ~ is_region static_document p.
Proof.
  intros p Hp. apply elem_of_querySelectorAll in Hp.
  vm_compute in Hp. inversion Hp.
Qed.

Lemma share_without_regions_sends_an_empty_list_witness :
  (forall p, ~ is_region static_document p) /\
  persistContents static_document = [] /\
  body (save_request static_document) = [LBRACK; RBRACK].
Proof.
  split; [exact static_document_has_no_region|].
  destruct (share_without_regions_sends_an_empty_list static_document initial
              static_document_has_no_region) as (H1 & H2 & _).
  split; [exact H1 | exact H2].
Defined.

Lemma result_lies_between_the_markers_witness :
  indexOf player_script (lit "source: ") = 23%Z /\
  indexOf player_script (lit "poster:") = 89%Z /\
  result player_script = take 29 (drop 32 player_script).
Proof.
  assert (H1 : indexOf player_script (lit "source: ") = Z.of_nat 23)
    by (vm_compute; reflexivity).
  assert (H2 : indexOf player_script (lit "poster:") = Z.of_nat 89)
    by (vm_compute; reflexivity).
  split; [exact H1|]. split; [exact H2|].
  assert (H3 : 23 + 9 + 28 <= 89) by lia.
  destruct (result_lies_between_the_markers player_script 23 89 H1 H2 H3)
    as (_ & _ & _ & Hr & _).
  exact Hr.
Defined.

Lemma missing_markers_yield_the_first_eight_units_witness :
  indexOf plain_script (lit "source: ") = (-1)%Z /\
  indexOf plain_script (lit "poster:") = (-1)%Z /\
  found plain_script = true /\ result plain_script = take 8 plain_script.
Proof.
  assert (H1 : indexOf plain_script (lit "source: ") = (-1)%Z) by (vm_compute; reflexivity).
  assert (H2 : indexOf plain_script (lit "poster:") = (-1)%Z) by (vm_compute; reflexivity).
  split; [exact H1|]. split; [exact H2|].
  apply (missing_markers_yield_the_first_eight_units plain_script H1 H2).
Defined.

Lemma uploaded_content_decodes_to_the_text_witness :
  well_formed (result player_script) /\
  base64_decode (encodedStringSecond (result player_script)) ≫= base64_decode
  = Some (utf8 (result player_script)).
Proof.
  assert (H : well_formed (result player_script)).
  { unfold result, substring. apply Forall_take, Forall_drop, well_formed_lit. }
  split; [exact H|].
  exact (proj1 (uploaded_content_decodes_to_the_text (result player_script) H)).
Defined.

